(** * NodeModal: editing one node of a JSON document

    A shallow embedding of [src/features/modals/NodeModal/index.tsx]:
    the row normaliser [normalizeNodeData], the path renderer
    [jsonPathToString], the seeding of the edit buffer, and the commit
    handler [handleSave] with its deferred reconciliation callback.

    The component is written in strict-mode JavaScript (an ES module), so
    the embedding starts with the fragment of the language the handlers
    rely on: JSON-shaped values, own-property reads and writes with their
    [TypeError]s, [String(v)], [JSON.parse] and [JSON.stringify].

    Modelling boundary of the platform part:
    - numbers are the integers [Z]: a numeric literal with a fraction or
      an exponent is rejected by [JSON.parse] here, and an integer is the
      platform's number, printed digit for digit, only while its
      magnitude is below [2^53] ([Spec.is_safe_integer]);
    - strings are sequences of 8-bit code units;
    - a read sees own properties only: a key that is not an own property
      reads as [undefined], where the platform first looks along the
      prototype chain.  The two agree on the reads that [Spec.plainRead]
      marks; on the others the platform finds an inherited member (a
      method of [Object.prototype], say), which is no JSON-shaped value;
    - a write creates or replaces an own property.  The exception of the
      language, an assignment to [__proto__] that reaches the accessor of
      [Object.prototype], is modelled for the two object literals of the
      component ([literal_assign] for the object [normalizeNodeData]
      prints, [primitive_assign] for the edit buffer); in a parsed
      document it is outside [Spec.takesKey];
    - objects are values, not references.  The document is a tree that no
      one else holds, so nothing is lost there; but the row object of a
      single-value node is shared between the node on display and the
      node collection, and the write of line 153 into it is modelled on
      the node on display only. *)

From Stdlib Require Import List String Ascii ZArith NArith Bool Lia.
From Stdlib Require Import Decimal DecimalString DecimalZ DecimalN DecimalPos.
Import ListNotations.
Open Scope string_scope.
Open Scope Z_scope.
Set Warnings "-register-all".

(** ** Completions: a result or a thrown exception *)

Inductive exn : Type := TypeError | SyntaxError | RangeError.

Inductive completion (A : Type) : Type :=
| Normal (a : A)
| Throw (e : exn).
Arguments Normal {A} a.
Arguments Throw {A} e.

Definition cbind {A B} (c : completion A) (k : A -> completion B) : completion B :=
  match c with
  | Normal a => k a
  | Throw e => Throw e
  end.

Declare Scope js_scope.
Delimit Scope js_scope with js.
Notation "x <- c ;; k" := (cbind c (fun x => k))
  (at level 61, c at next level, right associativity) : js_scope.

(** ** Values *)

Module JS.

(** A JSON-shaped JavaScript value.  An object is its own properties in
    the order [Object.keys] enumerates them; an array element that is a
    hole reads as [VUndefined]. *)
Inductive val : Type :=
| VUndefined
| VNull
| VBool (b : bool)
| VNum (n : Z)
| VStr (s : string)
| VArr (elems : list val)
| VObj (props : list (string * val)).

(** [typeof v === 'object' && v !== null] *)
Definition is_object (v : val) : bool :=
  match v with
  | VArr _ | VObj _ => true
  | _ => false
  end.

(** [String(n)] for an integer. *)
Definition string_of_Z (n : Z) : string := NilZero.string_of_int (Z.to_int n).

(** The array index a property key denotes, if it is a canonical numeric
    string below [2^32 - 1]. *)
Definition array_index (k : string) : option N :=
  match NilZero.uint_of_string k with
  | Some d =>
      let n := N.of_uint d in
      if (String.eqb (string_of_Z (Z.of_N n)) k && (n <? 4294967295)%N)%bool
      then Some n else None
  | None => None
  end.

(** [Array.prototype.join(",")] over already converted elements. *)
Fixpoint join (sep : string) (l : list string) : string :=
  match l with
  | [] => ""
  | [s] => s
  | s :: rest => s ++ sep ++ join sep rest
  end.

(** [String(v)], the conversion of template literals as well. *)
Fixpoint to_string (v : val) : string :=
  match v with
  | VUndefined => "undefined"
  | VNull => "null"
  | VBool true => "true"
  | VBool false => "false"
  | VNum n => string_of_Z n
  | VStr s => s
  | VArr l =>
      join "," (map (fun x => match x with
                              | VUndefined | VNull => ""
                              | _ => to_string x
                              end) l)
  | VObj _ => "[object Object]"
  end.

(** *** Own properties *)

Section Props.
Context {A : Type}.

Fixpoint props_get (k : string) (l : list (string * A)) : option A :=
  match l with
  | [] => None
  | (k', v) :: rest => if String.eqb k k' then Some v else props_get k rest
  end.

Definition props_mem (k : string) (l : list (string * A)) : bool :=
  match props_get k l with Some _ => true | None => false end.

Fixpoint props_replace (k : string) (v : A) (l : list (string * A)) : list (string * A) :=
  match l with
  | [] => []
  | (k', v') :: rest =>
      if String.eqb k k' then (k', v) :: rest else (k', v') :: props_replace k v rest
  end.

(** A new integer-keyed property goes before the first property that
    is string-keyed or has a larger index. *)
Fixpoint props_insert_index (i : N) (k : string) (v : A) (l : list (string * A))
  : list (string * A) :=
  match l with
  | [] => [(k, v)]
  | (k', v') :: rest =>
      match array_index k' with
      | Some j => if (j <? i)%N then (k', v') :: props_insert_index i k v rest
                  else (k, v) :: l
      | None => (k, v) :: l
      end
  end.

(** [o[k] = v] on the own properties of an ordinary object: an existing
    property keeps its place, a new one is created in enumeration order
    (integer keys ascending, then string keys by creation). *)
Definition props_set (k : string) (v : A) (l : list (string * A)) : list (string * A) :=
  if props_mem k l then props_replace k v l
  else match array_index k with
       | Some i => props_insert_index i k v l
       | None => l ++ [(k, v)]
       end.

Definition props_keys (l : list (string * A)) : list string := map fst l.
End Props.

(** *** The prototype of an ordinary object *)

(** The string-keyed properties of [Object.prototype], which every
    ordinary object inherits.  All are methods but [__proto__], an
    accessor: its getter returns the prototype of the receiver, its
    setter replaces that prototype when it is given an object or [null]
    and does nothing when it is given anything else. *)
Definition objectPrototypeNames : list string :=
  ["constructor"; "hasOwnProperty"; "isPrototypeOf"; "propertyIsEnumerable";
   "toLocaleString"; "toString"; "valueOf"; "__proto__";
   "__defineGetter__"; "__defineSetter__"; "__lookupGetter__"; "__lookupSetter__"].

(** [k in Object.prototype] *)
Definition inherited_name (k : string) : bool :=
  existsb (String.eqb k) objectPrototypeNames.

(** The prototype of an object that was created by an object literal:
    [Object.prototype], until an assignment to [__proto__] makes it
    [null] or another value. *)
Inductive proto : Type :=
| ProtoObject
| ProtoNull
| ProtoValue (v : val).

(** An object created by [{}]: its own properties and its prototype. *)
Record literal : Type := mkLiteral {
  own_props : list (string * val);
  proto_of : proto
}.

(** Whether the lookup of [__proto__] along the chain that starts at the
    prototype ends at the accessor of [Object.prototype]: not when the
    chain is empty, and not when the prototype is an object with an own
    property of that name (a parsed document can have one). *)
Definition reaches_accessor (p : proto) : bool :=
  match p with
  | ProtoObject => true
  | ProtoNull => false
  | ProtoValue (VObj ps) => negb (props_mem "__proto__" ps)
  | ProtoValue _ => true
  end.

(** The setter of [__proto__]. *)
Definition set_prototype (v : val) (o : literal) : literal :=
  match v with
  | VNull => mkLiteral (own_props o) ProtoNull
  | VObj _ | VArr _ => mkLiteral (own_props o) (ProtoValue v)
  | _ => o
  end.

(** [o[k] = v] on an object created by a literal.  The assignment
    creates or replaces an own property, except for the key [__proto__]
    when it is no own property and the accessor is inherited: then the
    setter runs and no own property is created. *)
Definition literal_assign (k : string) (v : val) (o : literal) : literal :=
  if (String.eqb k "__proto__" && negb (props_mem k (own_props o))
      && reaches_accessor (proto_of o))%bool
  then set_prototype v o
  else mkLiteral (props_set k v (own_props o)) (proto_of o).

(** [o[k] = v] on an object created by a literal when every value ever
    assigned is a primitive: the prototype stays [Object.prototype], and
    the setter of [__proto__] ignores the value. *)
Definition primitive_assign {A : Type} (k : string) (v : A) (l : list (string * A))
  : list (string * A) :=
  if (String.eqb k "__proto__" && negb (props_mem k l))%bool then l
  else props_set k v l.


(** *** Reading and writing a property *)

(** White space that [Number(s)] trims from both ends of a string. *)
Definition is_str_ws (c : ascii) : bool :=
  match N_of_ascii c with
  | 9%N | 10%N | 11%N | 12%N | 13%N | 32%N | 160%N => true
  | _ => false
  end.

Fixpoint trim_left (l : list ascii) : list ascii :=
  match l with
  | c :: rest => if is_str_ws c then trim_left rest else l
  | [] => []
  end.

Definition trim (l : list ascii) : list ascii :=
  List.rev (trim_left (List.rev (trim_left l))).

Definition digits_value (ds : list ascii) : option Z :=
  match ds with
  | [] => None
  | _ => option_map (fun d => Z.of_N (N.of_uint d))
           (NilEmpty.uint_of_string (string_of_list_ascii ds))
  end.

(** [Number(s)] on the decimal integers; [None] is NaN.  Hexadecimal,
    fractional and exponent forms are outside the integer fragment and
    read as NaN here. *)
Definition str_to_number (s : string) : option Z :=
  match trim (list_ascii_of_string s) with
  | [] => Some 0
  | "+"%char :: ds => digits_value ds
  | "-"%char :: ds => option_map Z.opp (digits_value ds)
  | ds => digits_value ds
  end.

(** [ToNumber(v)]; an array or object is first converted by [String]. *)
Definition to_number (v : val) : option Z :=
  match v with
  | VUndefined => None
  | VNull => Some 0
  | VBool b => Some (if b then 1 else 0)
  | VNum n => Some n
  | VStr s => str_to_number s
  | VArr _ | VObj _ => str_to_number (to_string v)
  end.

(** Writing element [i] of an array: in range it replaces the element,
    past the end it extends the array with holes. *)
Fixpoint array_set (i : nat) (v : val) (l : list val) : list val :=
  match i, l with
  | O, [] => [v]
  | O, _ :: rest => v :: rest
  | S i', [] => VUndefined :: array_set i' v []
  | S i', x :: rest => x :: array_set i' v rest
  end.

(** Assigning [length]: truncates or pads with holes. *)
Definition array_resize (n : nat) (l : list val) : list val :=
  firstn n l ++ repeat VUndefined (n - List.length l).

(** [o[k]] on own properties: reading from [undefined] or [null] throws;
    a primitive has no own property except the characters and [length]
    of a string.  A key that is no own property reads as [undefined]:
    this is the read of the platform when nothing along the prototype
    chain has the key ([Spec.plainRead]). *)
Definition get_prop (o : val) (k : string) : completion val :=
  match o with
  | VUndefined | VNull => Throw TypeError
  | VBool _ | VNum _ => Normal VUndefined
  | VStr s =>
      match array_index k with
      | Some i =>
          match String.get (N.to_nat i) s with
          | Some c => Normal (VStr (String c ""))
          | None => Normal VUndefined
          end
      | None =>
          if String.eqb k "length" then Normal (VNum (Z.of_nat (String.length s)))
          else Normal VUndefined
      end
  | VArr l =>
      match array_index k with
      | Some i => Normal (nth (N.to_nat i) l VUndefined)
      | None =>
          if String.eqb k "length" then Normal (VNum (Z.of_nat (List.length l)))
          else Normal VUndefined
      end
  | VObj ps =>
      match props_get k ps with
      | Some v => Normal v
      | None => Normal VUndefined
      end
  end.

(** [o[k] = v] in strict mode, returning the object after the write.
    Assigning to a property of [undefined], [null] or a primitive throws
    a [TypeError].  On an array a key that is neither an index nor
    [length] creates a named property, which is no element and is never
    serialised: the array is returned as it was.  On an object the
    property is created or replaced as an own property, which is the
    write of the platform unless the key is [__proto__] and no own
    property ([Spec.takesKey]). *)
Definition set_prop (o : val) (k : string) (v : val) : completion val :=
  match o with
  | VUndefined | VNull | VBool _ | VNum _ | VStr _ => Throw TypeError
  | VArr l =>
      match array_index k with
      | Some i => Normal (VArr (array_set (N.to_nat i) v l))
      | None =>
          if String.eqb k "length" then
            match to_number v with
            | Some n =>
                if ((0 <=? n) && (n <? 4294967296))%bool
                then Normal (VArr (array_resize (Z.to_nat n) l))
                else Throw RangeError
            | None => Throw RangeError
            end
          else Normal (VArr l)
      end
  | VObj ps => Normal (VObj (props_set k v ps))
  end.

End JS.
Export JS.

(** ** The JSON object *)

Module JSON.

(** *** [JSON.stringify(v, null, 2)] *)

Definition dquote : ascii := "034"%char.
Definition backslash : ascii := "092"%char.
Definition newline : string := String "010"%char "".

Definition hex_digit (n : N) : ascii :=
  match String.get (N.to_nat n) "0123456789abcdef" with
  | Some c => c
  | None => "0"%char
  end.

(** One code unit inside a quoted string. *)
Definition quote_char (c : ascii) : string :=
  let n := N_of_ascii c in
  if (n =? 34)%N then String backslash (String dquote "")
  else if (n =? 92)%N then String backslash (String backslash "")
  else if (n =? 8)%N then String backslash "b"
  else if (n =? 9)%N then String backslash "t"
  else if (n =? 10)%N then String backslash "n"
  else if (n =? 12)%N then String backslash "f"
  else if (n =? 13)%N then String backslash "r"
  else if (n <? 32)%N then
    String backslash
      (String "u" (String "0" (String "0"
         (String (hex_digit (n / 16)) (String (hex_digit (n mod 16)) "")))))
  else String c "".

Fixpoint quote_body (s : string) : string :=
  match s with
  | EmptyString => ""
  | String c rest => quote_char c ++ quote_body rest
  end.

Definition quote (s : string) : string :=
  String dquote (quote_body s ++ String dquote "").

(** The serialisation of one value at indentation [indent]; [None] is
    the [undefined] that makes an object skip the property and an array
    print [null]. *)
Fixpoint serialize (indent : string) (v : val) : option string :=
  match v with
  | VUndefined => None
  | VNull => Some "null"
  | VBool true => Some "true"
  | VBool false => Some "false"
  | VNum n => Some (string_of_Z n)
  | VStr s => Some (quote s)
  | VArr l =>
      let inner := indent ++ "  " in
      let partial :=
        map (fun x => match serialize inner x with
                      | Some s => s
                      | None => "null"
                      end) l in
      match partial with
      | [] => Some "[]"
      | _ => Some ("[" ++ newline ++ inner
                     ++ join ("," ++ newline ++ inner) partial
                     ++ newline ++ indent ++ "]")
      end
  | VObj ps =>
      let inner := indent ++ "  " in
      let partial :=
        flat_map (fun kv => match serialize inner (snd kv) with
                            | Some s => [quote (fst kv) ++ ": " ++ s]
                            | None => []
                            end) ps in
      match partial with
      | [] => Some "{}"
      | _ => Some ("{" ++ newline ++ inner
                     ++ join ("," ++ newline ++ inner) partial
                     ++ newline ++ indent ++ "}")
      end
  end.

(** [JSON.stringify(v, null, 2)].  The component only serialises
    objects and parsed documents, never a top-level [undefined]. *)
Definition stringify (v : val) : string :=
  match serialize "" v with
  | Some s => s
  | None => "undefined"
  end.

(** *** [JSON.parse(text)] *)

Definition is_ws (c : ascii) : bool :=
  match N_of_ascii c with
  | 9%N | 10%N | 13%N | 32%N => true
  | _ => false
  end.

Fixpoint skip_ws (cs : list ascii) : list ascii :=
  match cs with
  | c :: rest => if is_ws c then skip_ws rest else cs
  | [] => []
  end.

Definition is_digit (c : ascii) : bool :=
  let n := N_of_ascii c in ((48 <=? n) && (n <=? 57))%N.

Fixpoint span_digits (cs : list ascii) : list ascii * list ascii :=
  match cs with
  | c :: rest =>
      if is_digit c then let (ds, r) := span_digits rest in (c :: ds, r)
      else ([], cs)
  | [] => ([], [])
  end.

(** What follows the integer part of a number that is not an integer. *)
Definition starts_fraction (cs : list ascii) : bool :=
  match cs with
  | c :: _ => (Ascii.eqb c "." || Ascii.eqb c "e" || Ascii.eqb c "E")%bool
  | [] => false
  end.

Definition leading_zero (ds : list ascii) : bool :=
  match ds with
  | d :: _ :: _ => Ascii.eqb d "0"
  | _ => false
  end.

(** An integer literal: an optional minus sign, then [0] or digits that
    do not start with [0]. *)
Definition lex_number (cs : list ascii) : option (Z * list ascii) :=
  let (neg, body) :=
    match cs with
    | c :: r => if Ascii.eqb c "-" then (true, r) else (false, cs)
    | [] => (false, cs)
    end in
  let (ds, rest) := span_digits body in
  match ds with
  | [] => None
  | _ :: _ =>
      if (leading_zero ds || starts_fraction rest)%bool then None
      else match NilEmpty.uint_of_string (string_of_list_ascii ds) with
           | Some d =>
               let n := Z.of_N (N.of_uint d) in
               Some (if neg then - n else n, rest)
           | None => None
           end
  end.

Definition unescape (c : ascii) : option ascii :=
  match N_of_ascii c with
  | 34%N => Some dquote
  | 92%N => Some backslash
  | 47%N => Some "/"%char
  | 98%N => Some "008"%char
  | 102%N => Some "012"%char
  | 110%N => Some "010"%char
  | 114%N => Some "013"%char
  | 116%N => Some "009"%char
  | _ => None
  end.

Definition hex_value (c : ascii) : option N :=
  let n := N_of_ascii c in
  if ((48 <=? n) && (n <=? 57))%N then Some (n - 48)%N
  else if ((97 <=? n) && (n <=? 102))%N then Some (n - 87)%N
  else if ((65 <=? n) && (n <=? 70))%N then Some (n - 55)%N
  else None.

(** A [\uXXXX] escape; only code units below 256 are in the model. *)
Definition hex4 (h1 h2 h3 h4 : ascii) : option ascii :=
  match hex_value h1, hex_value h2, hex_value h3, hex_value h4 with
  | Some a, Some b, Some c, Some d =>
      let n := (((a * 16 + b) * 16 + c) * 16 + d)%N in
      if (n <? 256)%N then Some (ascii_of_N n) else None
  | _, _, _, _ => None
  end.

(** The rest of a string literal, after its opening quote. *)
Fixpoint lex_string (cs : list ascii) : option (string * list ascii) :=
  match cs with
  | [] => None
  | c :: rest =>
      if Ascii.eqb c dquote then Some ("", rest)
      else if Ascii.eqb c backslash then
        match rest with
        | [] => None
        | e :: rest' =>
            match unescape e with
            | Some ch =>
                match lex_string rest' with
                | Some (s, r) => Some (String ch s, r)
                | None => None
                end
            | None =>
                if Ascii.eqb e "u" then
                  match rest' with
                  | h1 :: h2 :: h3 :: h4 :: rest'' =>
                      match hex4 h1 h2 h3 h4, lex_string rest'' with
                      | Some ch, Some (s, r) => Some (String ch s, r)
                      | _, _ => None
                      end
                  | _ => None
                  end
                else None
            end
        end
      else if (N_of_ascii c <? 32)%N then None
      else match lex_string rest with
           | Some (s, r) => Some (String c s, r)
           | None => None
           end
  end.

Definition starts_with (pre : string) (cs : list ascii) : option (list ascii) :=
  let n := String.length pre in
  if String.eqb (string_of_list_ascii (firstn n cs)) pre then Some (skipn n cs)
  else None.

(** Recursive descent; [fuel] bounds the number of nested calls.  An
    object is built property by property, so a repeated key keeps its
    first place and its last value, and integer keys come first. *)
Fixpoint parse_value (fuel : nat) (cs : list ascii) : option (val * list ascii) :=
  match fuel with
  | O => None
  | S fuel' =>
      match skip_ws cs with
      | [] => None
      | c :: rest =>
          if Ascii.eqb c "{" then
            match skip_ws rest with
            | "}"%char :: rest' => Some (VObj [], rest')
            | _ => parse_members fuel' rest []
            end
          else if Ascii.eqb c "[" then
            match skip_ws rest with
            | "]"%char :: rest' => Some (VArr [], rest')
            | _ => parse_elements fuel' rest []
            end
          else if Ascii.eqb c dquote then
            match lex_string rest with
            | Some (s, r) => Some (VStr s, r)
            | None => None
            end
          else if (is_digit c || Ascii.eqb c "-")%bool then
            match lex_number (c :: rest) with
            | Some (n, r) => Some (VNum n, r)
            | None => None
            end
          else
            match starts_with "null" (c :: rest),
                  starts_with "true" (c :: rest),
                  starts_with "false" (c :: rest) with
            | Some r, _, _ => Some (VNull, r)
            | _, Some r, _ => Some (VBool true, r)
            | _, _, Some r => Some (VBool false, r)
            | _, _, _ => None
            end
      end
  end
with parse_elements (fuel : nat) (cs : list ascii) (acc : list val)
  : option (val * list ascii) :=
  match fuel with
  | O => None
  | S fuel' =>
      match parse_value fuel' cs with
      | Some (v, rest) =>
          match skip_ws rest with
          | ","%char :: rest' => parse_elements fuel' rest' (acc ++ [v])
          | "]"%char :: rest' => Some (VArr (acc ++ [v]), rest')
          | _ => None
          end
      | None => None
      end
  end
with parse_members (fuel : nat) (cs : list ascii) (acc : list (string * val))
  : option (val * list ascii) :=
  match fuel with
  | O => None
  | S fuel' =>
      match skip_ws cs with
      | q :: rest =>
          if Ascii.eqb q dquote then
            match lex_string rest with
            | Some (k, rest1) =>
                match skip_ws rest1 with
                | ":"%char :: rest2 =>
                    match parse_value fuel' rest2 with
                    | Some (v, rest3) =>
                        match skip_ws rest3 with
                        | ","%char :: rest4 =>
                            parse_members fuel' rest4 (props_set k v acc)
                        | "}"%char :: rest4 => Some (VObj (props_set k v acc), rest4)
                        | _ => None
                        end
                    | None => None
                    end
                | _ => None
                end
            | None => None
            end
          else None
      | [] => None
      end
  end.

(** [JSON.parse(text)]: one value, white space around it, nothing else.
    Every nested call consumes input, so twice the length of the text is
    fuel enough.  A text that is accepted is a JSON text; a JSON text
    with a fraction, an exponent or an escaped code unit above 255 is
    outside the fragment and rejected. *)
Definition parse (text : string) : completion val :=
  let cs := list_ascii_of_string text in
  match parse_value (2 * List.length cs + 2) cs with
  | Some (v, rest) =>
      match skip_ws rest with
      | [] => Normal v
      | _ :: _ => Throw SyntaxError
      end
  | None => Throw SyntaxError
  end.

End JSON.

(** ** The component *)

Module NodeModal.

(** *** Data: rows, paths, nodes (types/graph.ts) *)

Inductive RowType : Type := TString | TNumber | TBoolean | TNull | TArray | TObject.

(** A row of a node; [key] is [None] for [null]. *)
Record NodeRow : Type := mkRow {
  key : option string;
  value : val;
  type : RowType
}.

Inductive Segment : Type :=
| SegKey (s : string)
| SegIndex (n : Z).

(** A node of the graph.  Its layout fields (width, height) play no part
    in the modal and are left out; [path] is optional. *)
Record NodeData : Type := mkNode {
  id : string;
  text : list NodeRow;
  path : option (list Segment)
}.

(** The edit buffer, [Record<string, string>]. *)
Definition Fields : Type := list (string * string).

(** [row.key] as a condition: [null] and the empty string are falsy. *)
Definition has_key (row : NodeRow) : bool :=
  match key row with
  | Some k => negb (String.eqb k "")
  | None => false
  end.

Definition key_of (row : NodeRow) : string :=
  match key row with
  | Some k => k
  | None => ""
  end.

(** [row.type !== "array" && row.type !== "object"] *)
Definition is_flat (row : NodeRow) : bool :=
  match type row with
  | TArray | TObject => false
  | _ => true
  end.

(** [rows.length === 1 && !rows[0].key] *)
Definition isPrimitiveNode (rows : list NodeRow) : bool :=
  match rows with
  | [row] => negb (has_key row)
  | _ => false
  end.

(** The property key a path segment denotes when used as [o[seg]]. *)
Definition prop_key (seg : Segment) : string :=
  match seg with
  | SegKey s => s
  | SegIndex n => string_of_Z n
  end.

(** *** normalizeNodeData (lines 12-23) *)

(** The object of line 16 after the loop of lines 17-21.  It is created
    by a literal and written by [obj[row.key] = row.value], so a row
    keyed [__proto__] meets the inherited accessor. *)
Definition normalizeObject (nodeRows : list NodeRow) : list (string * val) :=
  own_props
    (fold_left
       (fun obj row =>
          if is_flat row then
            if has_key row then literal_assign (key_of row) (value row) obj else obj
          else obj)
       nodeRows (mkLiteral [] ProtoObject)).

Definition normalizeNodeData (nodeRows : list NodeRow) : string :=
  match nodeRows with
  | [] => "{}"
  | row :: _ =>
      if isPrimitiveNode nodeRows then to_string (value row)
      else JSON.stringify (VObj (normalizeObject nodeRows))
  end.

(** *** jsonPathToString (lines 26-30) *)

Definition segmentText (seg : Segment) : val :=
  match seg with
  | SegIndex n => VNum n
  | SegKey s => VStr (String JSON.dquote (s ++ String JSON.dquote ""))
  end.

Definition jsonPathToString (path : option (list Segment)) : string :=
  match path with
  | None | Some [] => "$"
  | Some p => "$[" ++ join "][" (map to_string (map segmentText p)) ++ "]"
  end.

(** *** Seeding the edit buffer (lines 49-61, repeated at 76-86) *)

(** [String(v ?? "")] *)
Definition stringOf (v : val) : string :=
  match v with
  | VUndefined | VNull => ""
  | _ => to_string v
  end.

(** The loop of lines 56-60.  [fields] is created by a literal and every
    value assigned is a string, so a row keyed [__proto__] gets no entry. *)
Definition seedFields (rows : list NodeRow) : Fields :=
  fold_left
    (fun fields row =>
       if (is_flat row && has_key row)%bool
       then primitive_assign (key_of row) (stringOf (value row)) fields
       else fields)
    rows [].

Definition toEditBuffer (rows : list NodeRow) : Fields :=
  match rows with
  | row :: _ =>
      if isPrimitiveNode rows then props_set "value" (stringOf (value row)) []
      else seedFields rows
  | [] => seedFields []
  end.

(** *** The stores and the component state *)

Inductive Toast : Type :=
| ToastSuccess (msg : string)
| ToastError (msg : string).

(** A pending [setTimeout] callback: the reconciliation closure, which
    captured the [nodeData] of the render that ran [handleSave]. *)
Record Timer : Type := mkTimer {
  delay : Z;
  captured : option NodeData
}.

(** useGraph ([selectedNode], [nodes]), useJson ([json], read by
    [getJson]), useFile ([contents], written by [setContents]), the two
    [useState] cells of the component, the [opened] prop, and the
    outputs: toasts shown, errors logged, timers scheduled. *)
Record Store : Type := mkStore {
  opened : bool;
  selectedNode : option NodeData;
  nodes : list NodeData;
  json : string;
  contents : string;
  isEditMode : bool;
  editedFields : Fields;
  toasts : list Toast;
  console : list exn;
  timers : list Timer
}.

(** A handler: it may change the stores and may throw; the stores at the
    time of the throw are what a [catch] block sees. *)
Definition M (A : Type) : Type := Store -> completion A * Store.

Definition ret {A} (a : A) : M A := fun st => (Normal a, st).

Definition bind {A B} (m : M A) (k : A -> M B) : M B :=
  fun st =>
    match m st with
    | (Normal a, st') => k a st'
    | (Throw e, st') => (Throw e, st')
    end.

Definition lift {A} (c : completion A) : M A := fun st => (c, st).

Definition try_catch {A} (body : M A) (handler : exn -> M A) : M A :=
  fun st =>
    match body st with
    | (Normal a, st') => (Normal a, st')
    | (Throw e, st') => handler e st'
    end.

Declare Scope store_scope.
Delimit Scope store_scope with store.
Notation "x <- c ;; k" := (bind c (fun x => k))
  (at level 61, c at next level, right associativity) : store_scope.
Notation "c ;; k" := (bind c (fun _ => k))
  (at level 61, right associativity) : store_scope.

Definition getJson : M string := fun st => (Normal (json st), st).

Definition getNodes : M (list NodeData) := fun st => (Normal (nodes st), st).

Definition setSelectedNode (n : option NodeData) : M unit :=
  fun st => (Normal tt,
    mkStore (opened st) n (nodes st) (json st) (contents st) (isEditMode st)
            (editedFields st) (toasts st) (console st) (timers st)).

Definition setContents (s : string) : M unit :=
  fun st => (Normal tt,
    mkStore (opened st) (selectedNode st) (nodes st) (json st) s (isEditMode st)
            (editedFields st) (toasts st) (console st) (timers st)).

Definition setIsEditMode (b : bool) : M unit :=
  fun st => (Normal tt,
    mkStore (opened st) (selectedNode st) (nodes st) (json st) (contents st) b
            (editedFields st) (toasts st) (console st) (timers st)).

Definition setEditedFields (f : Fields) : M unit :=
  fun st => (Normal tt,
    mkStore (opened st) (selectedNode st) (nodes st) (json st) (contents st)
            (isEditMode st) f (toasts st) (console st) (timers st)).

Definition toast (t : Toast) : M unit :=
  fun st => (Normal tt,
    mkStore (opened st) (selectedNode st) (nodes st) (json st) (contents st)
            (isEditMode st) (editedFields st) (toasts st ++ [t]) (console st) (timers st)).

Definition console_error (e : exn) : M unit :=
  fun st => (Normal tt,
    mkStore (opened st) (selectedNode st) (nodes st) (json st) (contents st)
            (isEditMode st) (editedFields st) (toasts st) (console st ++ [e]) (timers st)).

Definition setTimeout (t : Timer) : M unit :=
  fun st => (Normal tt,
    mkStore (opened st) (selectedNode st) (nodes st) (json st) (contents st)
            (isEditMode st) (editedFields st) (toasts st) (console st) (timers st ++ [t])).

Definition run (h : M unit) (st : Store) : Store := snd (h st).

(** *** The effect and the small handlers (lines 44-94) *)

(** The effect on [opened, nodeData]: leave edit mode and seed the
    buffer from the node on display. *)
Definition syncEffect : M unit :=
  fun st =>
    match opened st, selectedNode st with
    | true, Some nodeData =>
        (setIsEditMode false ;; setEditedFields (toEditBuffer (text nodeData)))%store st
    | _, _ => (Normal tt, st)
    end.

Definition handleEdit : M unit := setIsEditMode true.

Definition handleCancel : M unit :=
  fun st =>
    (setIsEditMode false ;;
     match selectedNode st with
     | Some nodeData => setEditedFields (toEditBuffer (text nodeData))
     | None => ret tt
     end)%store st.

Definition handleFieldChange (k v : string) : M unit :=
  fun st => setEditedFields (props_set k v (editedFields st)) st.

(** *** handleSave (lines 96-196) *)

(** [try { target[k] = JSON.parse(text) } catch { target[k] = text }]
    where [text] is [editedFields[k]], [undefined] when the buffer has no
    such entry.  The [catch] block also catches a failed assignment and
    repeats it with the raw text. *)
Definition assignParsed (target : val) (k : string) (text : option string)
  : completion val :=
  let attempt :=
    (v <- JSON.parse (match text with Some s => s | None => "undefined" end) ;;
     set_prop target k v)%js in
  match attempt with
  | Normal target' => Normal target'
  | Throw _ =>
      set_prop target k (match text with Some s => VStr s | None => VUndefined end)
  end.

(** [Object.keys(editedFields).forEach(key => ...)] writing into [target]. *)
Definition assignFields (editedFields : Fields) (target : val) : completion val :=
  fold_left
    (fun acc k => (t <- acc ;; assignParsed t k (props_get k editedFields))%js)
    (props_keys editedFields) (Normal target).

(** The document is a tree freshly built by [JSON.parse], so a write
    through [current] changes exactly the subtree [current] stands for.
    [put_back] rebuilds the parent around a child that was written to:
    the child of an object or array is an own property, replaced in
    place; a primitive has no child that could have been written to. *)
Definition put_back (parent : val) (k : string) (child : val) : val :=
  match parent with
  | VObj ps => VObj (props_replace k child ps)
  | VArr l =>
      match array_index k with
      | Some i =>
          if (N.to_nat i <? List.length l)%nat
          then VArr (array_set (N.to_nat i) child l)
          else parent
      | None => parent
      end
  | _ => parent
  end.

(** [for (...) current = current[path[i]]] over [segs], then [op] on the
    value reached, returning the document after the writes of [op]. *)
Fixpoint update_at (current : val) (segs : list Segment)
    (op : val -> completion val) : completion val :=
  match segs with
  | [] => op current
  | seg :: rest =>
      (next <- get_prop current (prop_key seg) ;;
       next' <- update_at next rest op ;;
       Normal (put_back current (prop_key seg) next'))%js
  end.

(** Lines 113-134: the write at [current[lastKey]]. *)
Definition writeNode (rows : list NodeRow) (editedFields : Fields)
    (lastKey : string) (current : val) : completion val :=
  if isPrimitiveNode rows then
    assignParsed current lastKey (props_get "value" editedFields)
  else
    (target <- get_prop current lastKey ;;
     if is_object target then
       (target' <- assignFields editedFields target ;;
        Normal (put_back current lastKey target'))
     else Normal current)%js.

(** Lines 101-144: the edits applied to the parsed document. *)
Definition applyEdits (nodeData : option NodeData) (editedFields : Fields)
    (fullJson : val) : completion val :=
  match nodeData with
  | Some nd =>
      match path nd with
      | Some (seg :: segs) =>
          let p := seg :: segs in
          update_at fullJson (removelast p)
            (writeNode (text nd) editedFields (prop_key (last p seg)))
      | _ => assignFields editedFields fullJson
      end
  | None => assignFields editedFields fullJson
  end.

(** [try { x = JSON.parse(text) } catch { x = text }] *)
Definition parsedOrRaw (text : option string) : val :=
  match text with
  | Some s =>
      match JSON.parse s with
      | Normal v => v
      | Throw _ => VStr s
      end
  | None => VUndefined
  end.

(** Lines 147-169: the node shown at once.  In the single-value case the
    source assigns into [text[0]] of the shallow copy, which is the row
    object of the node that was selected; the value installed is the
    same.  In the other case a row is replaced when
    [editedFields[row.key]] is not [undefined]; the buffer is read on its
    own entries here, which is the read of the platform for every key
    that is buffered or that [Object.prototype] does not define
    ([inherited_name]). *)
Definition optimisticNode (nodeData : NodeData) (editedFields : Fields) : NodeData :=
  if isPrimitiveNode (text nodeData) then
    match text nodeData with
    | row :: rest =>
        mkNode (id nodeData)
          (mkRow (key row) (parsedOrRaw (props_get "value" editedFields)) (type row)
             :: rest)
          (path nodeData)
    | [] => nodeData
    end
  else
    mkNode (id nodeData)
      (map (fun row =>
              if (has_key row && props_mem (key_of row) editedFields)%bool
              then mkRow (key row)
                     (parsedOrRaw (props_get (key_of row) editedFields)) (type row)
              else row)
         (text nodeData))
      (path nodeData).

Definition successMessage : string := "Node updated successfully!".
Definition failureMessage : string := "Failed to update node. Please check your edits.".

(** The body of the [try] block.  The stores are written in the order of
    the source, after the last statement that can throw.  The node
    collection is not written by the handler; what the assignment of
    line 153 shows through a row object that the collection shares is
    not part of [nodes] here. *)
(** The body of the [try] block. *)
Definition saveBody (nodeData : option NodeData) (editedFields : Fields) : M unit :=
  (contentsText <- getJson ;;
   fullJson <- lift (JSON.parse contentsText) ;;
   fullJson' <- lift (applyEdits nodeData editedFields fullJson) ;;
   match nodeData with
   | Some nd => setSelectedNode (Some (optimisticNode nd editedFields))
   | None => ret tt
   end ;;
   setContents (JSON.stringify fullJson') ;;
   toast (ToastSuccess successMessage) ;;
   setIsEditMode false ;;
   setTimeout (mkTimer 500 nodeData))%store.

(** [handleSave], run with the [nodeData] and [editedFields] of the
    current render. *)
Definition handleSave : M unit :=
  fun st =>
    try_catch
      (saveBody (selectedNode st) (editedFields st))
      (fun error => (toast (ToastError failureMessage) ;; console_error error)%store)
      st.

(** Lines 183-191: the callback of the timer. *)
Definition reconcile (nodeData : option NodeData) : M unit :=
  match nodeData with
  | Some nd =>
      (updatedNodes <- getNodes ;;
       match find (fun n => String.eqb (id n) (id nd)) updatedNodes with
       | Some updatedNode => setSelectedNode (Some updatedNode)
       | None => ret tt
       end)%store
  | None => ret tt
  end.

(** The oldest pending timer fires. *)
Definition fireTimer (st : Store) : Store :=
  match timers st with
  | t :: rest =>
      run (reconcile (captured t))
        (mkStore (opened st) (selectedNode st) (nodes st) (json st) (contents st)
                 (isEditMode st) (editedFields st) (toasts st) (console st) rest)
  | [] => st
  end.

(** *** The collaborators *)

(** The rebuild pipeline: the JSON store takes the new contents and the
    graph store a fresh collection of nodes. *)
Definition rebuild (newNodes : list NodeData) (st : Store) : Store :=
  mkStore (opened st) (selectedNode st) newNodes (contents st) (contents st)
          (isEditMode st) (editedFields st) (toasts st) (console st) (timers st).

(** The graph view: the user clicks another node. *)
Definition selectNode (n : NodeData) (st : Store) : Store :=
  run (setSelectedNode (Some n)) st.

(** Reading the document along a path. *)
Fixpoint lookup_path (current : val) (segs : list Segment) : completion val :=
  match segs with
  | [] => Normal current
  | seg :: rest => (next <- get_prop current (prop_key seg) ;; lookup_path next rest)%js
  end.

End NodeModal.

(** ** Vocabulary of the specification

    The specification speaks of outcomes of a commit, of the container a
    path resolves to, and of rendered addresses; these definitions give
    its words a meaning over the stores above. *)

Module Spec.
Import NodeModal.

(** The stores after a commit that failed with [e]: one failure toast,
    the error logged, nothing else touched. *)
Definition afterFailure (e : exn) (st : Store) : Store :=
  mkStore (opened st) (selectedNode st) (nodes st) (json st) (contents st)
          (isEditMode st) (editedFields st)
          (toasts st ++ [ToastError failureMessage]) (console st ++ [e]) (timers st).

(** The stores after a commit that produced the document [doc'], as
    [saveBody] leaves them. *)
(** The stores after a commit that produced the document [doc']. *)
Definition afterSuccess (doc' : val) (st : Store) : Store :=
  mkStore (opened st)
          (match selectedNode st with
           | Some nd => Some (optimisticNode nd (editedFields st))
           | None => None
           end)
          (nodes st) (json st) (JSON.stringify doc') false (editedFields st)
          (toasts st ++ [ToastSuccess successMessage]) (console st)
          (timers st ++ [mkTimer 500 (selectedNode st)]).

(** Whether the commit of [st] succeeds: the [try] block ends normally. *)
Definition commitSucceeds (st : Store) : bool :=
  match fst (saveBody (selectedNode st) (editedFields st) st) with
  | Normal _ => true
  | Throw _ => false
  end.

(** The address of a node; no path is the root. *)
Definition nodePath (nd : NodeData) : list Segment :=
  match path nd with
  | Some p => p
  | None => []
  end.

(** [resolveParent(root, path)]: the walk over [path[0..len-2]]. *)
Definition resolveParent (root : val) (p : list Segment) : completion val :=
  lookup_path root (removelast p).

(** [finalKey(path)]: the last segment, as a property key. *)
Definition finalKey (p : list Segment) : string :=
  match p with
  | [] => ""
  | seg :: _ => prop_key (last p seg)
  end.

(** The parent holds elements under [k]: it is an object, or an array
    and [k] an index. *)
Definition holdsKey (parent : val) (k : string) : bool :=
  match parent with
  | VObj _ => true
  | VArr _ => match array_index k with Some _ => true | None => false end
  | _ => false
  end.

(** Address resolution reaches a container: the walk ends, at an object
    or an array. *)
Definition reachesContainer (root : val) (p : list Segment) : bool :=
  match resolveParent root p with
  | Normal parent => is_object parent
  | Throw _ => false
  end.

(** Address resolution ends in an error: the walk reads a property of
    [undefined] or [null], or ends at one of them. *)
Definition resolutionThrows (root : val) (p : list Segment) : bool :=
  match resolveParent root p with
  | Normal VUndefined | Normal VNull => true
  | Normal _ => false
  | Throw _ => true
  end.

(** A row that the flat views keep: its type is neither array nor
    object, and it has a key that is not empty. *)
Definition is_kept (row : NodeRow) : bool :=
  match type row, key row with
  | TArray, _ | TObject, _ => false
  | _, Some k => negb (String.eqb k "")
  | _, None => false
  end.

(** The row that supplies field [k]: the last kept row with that key. *)
Fixpoint keptRow (k : string) (rows : list NodeRow) : option NodeRow :=
  match rows with
  | [] => None
  | row :: rest =>
      match keptRow k rest with
      | Some r => Some r
      | None => if (is_kept row && String.eqb (key_of row) k)%bool then Some row else None
      end
  end.

(** One bracketed segment of a rendered address: a string segment in
    double quotes, a numeric segment bare. *)
Definition bracketed (seg : Segment) : string :=
  match seg with
  | SegKey s => "[" ++ String JSON.dquote "" ++ s ++ String JSON.dquote "" ++ "]"
  | SegIndex n => "[" ++ string_of_Z n ++ "]"
  end.

(** All the strings of a list, one after the other. *)
Definition flatten (l : list string) : string := fold_right append "" l.


(** The fields of the addressed object after every buffered entry was
    written as its parsed-or-raw value. *)
Definition writtenFields (editedFields : Fields) (fields : list (string * val))
  : list (string * val) :=
  fold_left (fun acc k => props_set k (parsedOrRaw (props_get k editedFields)) acc)
    (props_keys editedFields) fields.


(** *** Where the model reads and writes what the platform does *)

Definition is_index (k : string) : bool :=
  match array_index k with
  | Some _ => true
  | None => false
  end.

(** A read [cur[k]] that meets no inherited member: [k] is an own
    property of the object, or no name of [Object.prototype]; on an
    array or a string it is an index or [length]; on a number or a
    boolean it is an index, which no prototype defines.  (Reading from
    [undefined] or [null] throws whatever the key.) *)
Definition plainRead (cur : val) (k : string) : bool :=
  match cur with
  | VUndefined | VNull => true
  | VBool _ | VNum _ => is_index k
  | VStr _ | VArr _ => (is_index k || String.eqb k "length")%bool
  | VObj ps => (props_mem k ps || negb (inherited_name k))%bool
  end.

(** Every read of the walk along [segs] is such a read. *)
Fixpoint plainWalk (cur : val) (segs : list Segment) : bool :=
  match segs with
  | [] => true
  | seg :: rest =>
      (plainRead cur (prop_key seg) &&
       match get_prop cur (prop_key seg) with
       | Normal next => plainWalk next rest
       | Throw _ => true
       end)%bool
  end.

(** The parent takes a value under [k] as an own property or an element:
    it is an object, and [k] is an own property of it or not
    [__proto__]; or it is an array and [k] an index. *)
Definition takesKey (parent : val) (k : string) : bool :=
  match parent with
  | VObj ps => (props_mem k ps || negb (String.eqb k "__proto__"))%bool
  | VArr _ => is_index k
  | _ => false
  end.



(** *** Rows with and without a key *)

(** A row with no key: the key is [null] or the empty string. *)
Definition keyless (row : NodeRow) : Prop := key row = None \/ key row = Some "".

(** *** Rows the form has an input for *)

(** The row whose text the form shows under [k]: the row that supplies
    [k], except under [__proto__], which the buffer never holds. *)
Definition seededRow (k : string) (rows : list NodeRow) : option NodeRow :=
  if String.eqb k "__proto__" then None else keptRow k rows.

(** *** What a commit leaves *)

(** The stores [st'] after a commit from [st] that reported success with
    the document [doc']: the text stored, edit mode left, the toast, the
    timer, and what was not touched.  The node on display and the node
    collection are described apart. *)
Definition committed (doc' : val) (st st' : Store) : Prop :=
  contents st' = JSON.stringify doc' /\
  isEditMode st' = false /\
  toasts st' = (toasts st ++ [ToastSuccess successMessage])%list /\
  timers st' = (timers st ++ [mkTimer 500 (selectedNode st)])%list /\
  console st' = console st /\
  json st' = json st /\
  editedFields st' = editedFields st /\
  opened st' = opened st.

(** The row [shown] is the row [row] after the optimistic update with
    the buffer [editedFields]: key and type are kept; a row whose key is
    buffered holds the parsed value of the buffered text, or the text
    itself when it does not parse; a row without a key, or with a key
    that is neither buffered nor a name of [Object.prototype] (which the
    buffer would inherit), holds the value it held. *)
Definition rowShows (editedFields : Fields) (row shown : NodeRow) : Prop :=
  key shown = key row /\ type shown = type row /\
  (has_key row = true -> props_mem (key_of row) editedFields = true ->
   value shown = parsedOrRaw (props_get (key_of row) editedFields)) /\
  (keyless row \/
   (props_mem (key_of row) editedFields = false /\ inherited_name (key_of row) = false) ->
   value shown = value row).

(** The node [shown] is the object-shaped node [nd] with the buffered
    edits: the identifier and the path are those of [nd], and the rows
    are the rows of [nd], one by one, after the optimistic update. *)
Definition showsEdits (nd : NodeData) (editedFields : Fields) (shown : NodeData) : Prop :=
  id shown = id nd /\ path shown = path nd /\
  Forall2 (rowShows editedFields) (text nd) (text shown).

End Spec.

(** ** Concrete documents, nodes and stores *)

Module Examples.
Import NodeModal Spec.

(** The modal open on [nd] in edit mode, over the document text [doc],
    with [fields] in the buffer and nothing shown, logged or scheduled. *)
Definition editing (doc : string) (nd : NodeData) (fields : Fields) : Store :=
  mkStore true (Some nd) [nd] doc doc true fields [] [] [].

(** The document [{"x":1}] and its root node. *)
Definition rootText : string := "{" ++ JSON.quote "x" ++ ":1}".
Definition rootNode : NodeData :=
  mkNode "1" [mkRow (Some "x") (VNum 1) TNumber] (Some []).
Definition rootStore : Store := editing rootText rootNode [("x", "2")].

(** A node addressed at [a.b] over the document [{"a":5}]: the walk to
    the parent ends at the number [5]. *)
Definition staleText : string := "{" ++ JSON.quote "a" ++ ":5}".
Definition staleNode : NodeData :=
  mkNode "2" [mkRow (Some "x") (VNum 1) TNumber] (Some [SegKey "a"; SegKey "b"]).
Definition staleStore : Store := editing staleText staleNode [("x", "2")].

(** The same node over [{"a":null}]: the walk ends at [null]. *)
Definition nullText : string := "{" ++ JSON.quote "a" ++ ":null}".
Definition nullStore : Store := editing nullText staleNode [("x", "2")].

(** An object-shaped node addressed at [a] over [{"a":5}]: the address
    holds a number. *)
Definition numberNode : NodeData :=
  mkNode "3" [mkRow (Some "x") (VNum 1) TNumber] (Some [SegKey "a"]).
Definition numberStore : Store := editing staleText numberNode [("x", "2")].

(** The document [42] and its root node, a single value. *)
Definition scalarNode : NodeData :=
  mkNode "1" [mkRow None (VNum 42) TNumber] (Some []).
Definition scalarStore : Store := editing "42" scalarNode [("value", "43")].

(** The second element of [a] in [{"a":[1,2,3]}], a single value. *)
Definition elementText : string := "{" ++ JSON.quote "a" ++ ":[1,2,3]}".

(** The document [{"zip":"123"}]: a string that reads as a number. *)
Definition zipText : string :=
  "{" ++ JSON.quote "zip" ++ ":" ++ JSON.quote "123" ++ "}".
Definition zipNode : NodeData :=
  mkNode "1" [mkRow (Some "zip") (VStr "123") TString] (Some []).

(** The document [{"n":7,"ok":true}]. *)
Definition flagsText : string :=
  "{" ++ JSON.quote "n" ++ ":7," ++ JSON.quote "ok" ++ ":true}".
Definition flagsNode : NodeData :=
  mkNode "1" [mkRow (Some "n") (VNum 7) TNumber; mkRow (Some "ok") (VBool true) TBoolean]
         (Some []).
Definition flagsStore : Store :=
  editing flagsText flagsNode (toEditBuffer (text flagsNode)).

(** The document [{"n":null}]. *)
Definition nullFieldText : string := "{" ++ JSON.quote "n" ++ ":null}".
Definition nullFieldRow : NodeRow := mkRow (Some "n") VNull TNull.
Definition nullFieldNode : NodeData := mkNode "1" [nullFieldRow] (Some []).
Definition nullFieldStore : Store :=
  editing nullFieldText nullFieldNode (toEditBuffer (text nullFieldNode)).

(** The modal just opened on the root node of [{"x":1}], before the
    effect has run. *)
Definition openedStore : Store :=
  mkStore true (Some rootNode) [rootNode] rootText rootText false [] [] [] [].

(** A second node, and the first node as rebuilt from [{"x":2}]. *)
Definition otherNode : NodeData :=
  mkNode "9" [mkRow (Some "y") (VNum 0) TNumber] (Some [SegKey "other"]).
Definition rebuiltRoot : NodeData :=
  mkNode "1" [mkRow (Some "x") (VNum 2) TNumber] (Some []).



(** A node with one row [n: null] addressed at [a] of [{"a":5}], where
    a number is stored; the buffer is the one seeded from the node. *)
Definition nullAtNumberNode : NodeData :=
  mkNode "12" [nullFieldRow] (Some [SegKey "a"]).
Definition nullAtNumberStore : Store :=
  editing staleText nullAtNumberNode (toEditBuffer (text nullAtNumberNode)).

End Examples.

(** ** The edit session and the parts of a commit, for the further
    properties *)

Module Session.
Import NodeModal Spec.

(** The user types: one [onChange] event per pair, in order (line 216). *)
Definition typing (changes : list (string * string)) (st : Store) : Store :=
  fold_left (fun s kv => run (handleFieldChange (fst kv) (snd kv)) s) changes st.

(** The write of lines 123-133 seen from the addressed value: an object
    or array receives the buffered entries, anything else is left. *)
Definition writeTarget (editedFields : Fields) (target : val) : completion val :=
  if is_object target then assignFields editedFields target else Normal target.

(** A path that leaves [p] at some segment: the two share [common] and
    then continue under different keys. *)
Definition branchesOff (q p : list Segment) : Prop :=
  exists common s tail s0 tail0,
    q = (common ++ s :: tail)%list /\ p = (common ++ s0 :: tail0)%list /\
    prop_key s <> prop_key s0.

(** The source text of the quote-bracket-quote run that separates two
    rendered string segments. *)
Definition segmentGap : string :=
  String JSON.dquote ("][" ++ String JSON.dquote "").

(** The modal moved to the node [n] with [fields] in the buffer, the
    other stores as they are. *)
Definition reselect (n : NodeData) (fields : Fields) (st : Store) : Store :=
  mkStore (opened st) (Some n) (nodes st) (json st) (contents st) (isEditMode st)
          fields (toasts st) (console st) (timers st).


(** A string, a number, a boolean or [null]. *)
Definition is_scalar (v : val) : bool :=
  match v with
  | VNull | VBool _ | VNum _ | VStr _ => true
  | _ => false
  end.


End Session.

(** ** Further documents, nodes and stores *)

Module MoreExamples.
Import NodeModal Spec Examples.

(** The document [{"user":{"name":"Ann","tags":[1,2]},"n":1}] and the
    node of [user], with [Bob] typed for [name]. *)
Definition nestedText : string :=
  "{" ++ JSON.quote "user" ++ ":{" ++ JSON.quote "name" ++ ":" ++ JSON.quote "Ann"
      ++ "," ++ JSON.quote "tags" ++ ":[1,2]}," ++ JSON.quote "n" ++ ":1}".
Definition nestedDoc : val :=
  VObj [("user", VObj [("name", VStr "Ann"); ("tags", VArr [VNum 1; VNum 2])]);
        ("n", VNum 1)].
Definition userNode : NodeData :=
  mkNode "5" [mkRow (Some "name") (VStr "Ann") TString;
              mkRow (Some "tags") VUndefined TArray]
         (Some [SegKey "user"]).
Definition userStore : Store := editing nestedText userNode [("name", "Bob")].

(** A node of [{"a":[1,2,3]}] addressed past the end of [a]. *)
Definition pastEndNode : NodeData :=
  mkNode "6" [mkRow None (VNum 0) TNumber] (Some [SegKey "a"; SegIndex 5]).
Definition pastEndStore : Store := editing elementText pastEndNode [("value", "9")].

(** The root node of [{"zip":"123"}] with the text ["123"], quotes
    included, typed for [zip]. *)
Definition quotedZipStore : Store :=
  editing zipText zipNode [("zip", JSON.stringify (VStr "123"))].

(** The single value [user.name] of the nested document, with [Bob]
    typed for it. *)
Definition nameRow : NodeRow := mkRow None (VStr "Ann") TString.
Definition nameNode : NodeData :=
  mkNode "8" [nameRow] (Some [SegKey "user"; SegKey "name"]).
Definition nameStore : Store := editing nestedText nameNode [("value", "Bob")].

(** The root node of [{"x":1}] with the text [ 2 ], blanks included,
    typed for [x]. *)
Definition paddedStore : Store :=
  mkStore true (Some rootNode) [rootNode] rootText rootText true [("x", " 2 ")] [] [] [].


(** The root node of the nested document, with [2] typed for [n]. *)
Definition nestedRootNode : NodeData :=
  mkNode "11" [mkRow (Some "user") VUndefined TObject; mkRow (Some "n") (VNum 1) TNumber]
         (Some []).
Definition nestedRootStore : Store := editing nestedText nestedRootNode [("n", "2")].

(** The node of [user] when every row is nested: nothing to edit. *)
Definition tagsOnlyNode : NodeData :=
  mkNode "7" [mkRow (Some "tags") VUndefined TArray] (Some [SegKey "user"]).
Definition tagsOnlyStore : Store :=
  editing nestedText tagsOnlyNode (toEditBuffer (text tagsOnlyNode)).

End MoreExamples.

(** * Properties of the platform fragment *)

Section PropsFacts.
Context {A : Type}.
Implicit Types (k : string) (l : list (string * A)).

Lemma props_mem_false_get k l : props_mem k l = false -> props_get k l = None.
Proof. unfold props_mem. destruct (props_get k l); [discriminate | reflexivity]. Qed.

Lemma props_mem_true_get k l :
  props_mem k l = true -> exists v, props_get k l = Some v.
Proof. unfold props_mem. destruct (props_get k l) as [v|]; [eauto | discriminate]. Qed.

Lemma props_get_replace k k' (v : A) l :
  props_mem k' l = true ->
  props_get k (props_replace k' v l) = if String.eqb k k' then Some v else props_get k l.
Proof.
  unfold props_mem.
  induction l as [|[k0 v0] l IH]; simpl; [discriminate|].
  destruct (String.eqb k' k0) eqn:E0; simpl.
  - intros _. apply String.eqb_eq in E0; subst k0.
    destruct (String.eqb k k'); reflexivity.
  - intros H. destruct (String.eqb k k0) eqn:E1.
    + apply String.eqb_eq in E1; subst k0.
      rewrite String.eqb_sym, E0. reflexivity.
    + apply IH, H.
Qed.

Lemma props_get_insert_index k k' i (v : A) l :
  props_get k' l = None ->
  props_get k (props_insert_index i k' v l)
  = if String.eqb k k' then Some v else props_get k l.
Proof.
  induction l as [|[k0 v0] l IH]; simpl.
  - intros _. destruct (String.eqb k k'); reflexivity.
  - destruct (String.eqb k' k0) eqn:E0; [discriminate|]. intros H.
    assert (Hfront : props_get k ((k', v) :: (k0, v0) :: l)
                     = if String.eqb k k' then Some v else props_get k ((k0, v0) :: l))
      by reflexivity.
    destruct (array_index k0) as [j|]; [destruct (j <? i)%N|]; try exact Hfront.
    simpl. destruct (String.eqb k k0) eqn:E1.
    + apply String.eqb_eq in E1; subst k0.
      rewrite String.eqb_sym, E0. reflexivity.
    + apply IH, H.
Qed.

Lemma props_get_app_new k k' (v : A) l :
  props_get k' l = None ->
  props_get k (l ++ [(k', v)]) = if String.eqb k k' then Some v else props_get k l.
Proof.
  induction l as [|[k0 v0] l IH]; simpl.
  - intros _. destruct (String.eqb k k'); reflexivity.
  - destruct (String.eqb k' k0) eqn:E0; [discriminate|]. intros H.
    destruct (String.eqb k k0) eqn:E1.
    + apply String.eqb_eq in E1; subst k0.
      rewrite String.eqb_sym, E0. reflexivity.
    + apply IH, H.
Qed.

(** Reading after a write: the written key holds the new value, every
    other key what it held before. *)
Lemma props_get_set k k' (v : A) l :
  props_get k (props_set k' v l) = if String.eqb k k' then Some v else props_get k l.
Proof.
  unfold props_set. destruct (props_mem k' l) eqn:M.
  - apply props_get_replace, M.
  - apply props_mem_false_get in M.
    destruct (array_index k').
    + apply props_get_insert_index, M.
    + apply props_get_app_new, M.
Qed.

Lemma props_replace_absent k (v : A) l :
  props_get k l = None -> props_replace k v l = l.
Proof.
  induction l as [|[k0 v0] l IH]; simpl; [reflexivity|].
  destruct (String.eqb k k0); [discriminate|]. intros H. now rewrite IH.
Qed.

Lemma props_replace_same k (v : A) l :
  props_get k l = Some v -> props_replace k v l = l.
Proof.
  induction l as [|[k0 v0] l IH]; simpl; [discriminate|].
  destruct (String.eqb k k0).
  - now intros [= ->].
  - intros H. now rewrite IH.
Qed.

Lemma props_get_replace_present k (v v0 : A) l :
  props_get k l = Some v0 -> props_get k (props_replace k v l) = Some v.
Proof.
  intros H. rewrite props_get_replace.
  - now rewrite String.eqb_refl.
  - unfold props_mem. now rewrite H.
Qed.

End PropsFacts.

(** ** [JSON.parse] reads back what [String] prints for an integer *)

Section ParseNumber.

Lemma span_digits_uint d :
  JSON.span_digits (list_ascii_of_string (NilEmpty.string_of_uint d))
  = (list_ascii_of_string (NilEmpty.string_of_uint d), []).
Proof. induction d; simpl; rewrite ?IHd; reflexivity. Qed.

Lemma nzhead_not_D0 d d' : nzhead d <> D0 d'.
Proof. induction d; simpl; try discriminate; auto. Qed.

Lemma to_uint_no_leading_zero p d : Pos.to_uint p <> D0 d.
Proof.
  intros H.
  pose proof (DecimalPos.Unsigned.to_of (Pos.to_uint p)) as U.
  rewrite DecimalPos.Unsigned.of_to in U. simpl in U.
  rewrite H in U. unfold unorm in U. simpl in U.
  destruct (nzhead d) eqn:E; try discriminate.
  - injection U as U. subst d. now apply (DecimalPos.Unsigned.to_uint_nonzero p).
  - exact (nzhead_not_D0 _ _ E).
Qed.

Lemma leading_zero_to_uint p :
  JSON.leading_zero (list_ascii_of_string (NilEmpty.string_of_uint (Pos.to_uint p))) = false.
Proof.
  pose proof (to_uint_no_leading_zero p) as H.
  destruct (Pos.to_uint p) as [|d|d|d|d|d|d|d|d|d|d]; simpl;
    try reflexivity; try (now destruct (list_ascii_of_string _)).
  now destruct (H d).
Qed.

(** The first character of a printed number is a digit: none of the
    characters the parser dispatches on before it tries a number. *)
Lemma uint_first_char d :
  d <> Nil ->
  exists c r,
    list_ascii_of_string (NilEmpty.string_of_uint d) = c :: r /\
    JSON.is_digit c = true /\ JSON.is_ws c = false /\
    Ascii.eqb c "-" = false /\ Ascii.eqb c "{" = false /\
    Ascii.eqb c "[" = false /\ Ascii.eqb c JSON.dquote = false.
Proof.
  destruct d; [congruence | ..]; intros _; simpl; eexists _, _;
    (split; [reflexivity | repeat split]).
Qed.

Lemma lex_number_uint p :
  JSON.lex_number (list_ascii_of_string (NilEmpty.string_of_uint (Pos.to_uint p)))
  = Some (Z.pos p, []).
Proof.
  unfold JSON.lex_number.
  pose proof (leading_zero_to_uint p) as LZ.
  pose proof (span_digits_uint (Pos.to_uint p)) as SD.
  destruct (uint_first_char (Pos.to_uint p) (DecimalPos.Unsigned.to_uint_nonnil p))
    as (c & r & EL & _ & _ & Hm & _).
  rewrite EL at 1. rewrite Hm, SD. rewrite EL at 1. rewrite LZ. simpl.
  rewrite string_of_list_ascii_of_string, NilEmpty.usu.
  unfold N.of_uint. now rewrite DecimalPos.Unsigned.of_to.
Qed.

Lemma lex_number_neg p :
  JSON.lex_number
    ("-"%char :: list_ascii_of_string (NilEmpty.string_of_uint (Pos.to_uint p)))
  = Some (Z.neg p, []).
Proof.
  unfold JSON.lex_number. simpl Ascii.eqb. cbv iota.
  pose proof (leading_zero_to_uint p) as LZ.
  rewrite (span_digits_uint (Pos.to_uint p)).
  destruct (uint_first_char (Pos.to_uint p) (DecimalPos.Unsigned.to_uint_nonnil p))
    as (c & r & EL & _).
  rewrite EL at 1. rewrite LZ. simpl.
  rewrite string_of_list_ascii_of_string, NilEmpty.usu.
  unfold N.of_uint. now rewrite DecimalPos.Unsigned.of_to.
Qed.

Lemma string_of_Z_chars n :
  exists c r,
    list_ascii_of_string (string_of_Z n) = c :: r /\
    JSON.lex_number (c :: r) = Some (n, []) /\
    (JSON.is_digit c || Ascii.eqb c "-")%bool = true /\ JSON.is_ws c = false /\
    Ascii.eqb c "{" = false /\ Ascii.eqb c "[" = false /\
    Ascii.eqb c JSON.dquote = false.
Proof.
  destruct n as [|p|p]; unfold string_of_Z; simpl.
  - eexists _, _. repeat split.
  - pose proof (DecimalPos.Unsigned.to_uint_nonnil p) as NN.
    destruct (uint_first_char _ NN) as (c & r & EL & Hd & Hw & Hm & Hb & Hk & Hq).
    exists c, r.
    replace (NilZero.string_of_uint (Pos.to_uint p))
      with (NilEmpty.string_of_uint (Pos.to_uint p))
      by (destruct (Pos.to_uint p); [congruence | reflexivity ..]).
    rewrite <- EL at 2. rewrite lex_number_uint, Hd. repeat split; assumption.
  - pose proof (DecimalPos.Unsigned.to_uint_nonnil p) as NN.
    replace (NilZero.string_of_uint (Pos.to_uint p))
      with (NilEmpty.string_of_uint (Pos.to_uint p))
      by (destruct (Pos.to_uint p); [congruence | reflexivity ..]).
    eexists _, _. split; [reflexivity|]. rewrite lex_number_neg. repeat split.
Qed.

(** [JSON.parse(String(n))] is [n]. *)
Lemma parse_string_of_Z n : JSON.parse (string_of_Z n) = Normal (VNum n).
Proof.
  unfold JSON.parse.
  destruct (string_of_Z_chars n) as (c & r & EL & Hlex & Hd & Hw & Hb & Hk & Hq).
  rewrite EL.
  replace (2 * List.length (c :: r) + 2)%nat
    with (S (2 * List.length (c :: r) + 1))%nat by lia.
  cbn [JSON.parse_value JSON.skip_ws].
  rewrite Hw, Hb, Hk, Hq, Hd, Hlex. reflexivity.
Qed.

Lemma parse_empty : JSON.parse "" = Throw SyntaxError.
Proof. reflexivity. Qed.

Lemma parse_true : JSON.parse "true" = Normal (VBool true).
Proof. reflexivity. Qed.

Lemma parse_false : JSON.parse "false" = Normal (VBool false).
Proof. reflexivity. Qed.

End ParseNumber.

(** ** Reading and writing along a path *)

Section PathFacts.
Import NodeModal.

Lemma nth_array_set i v l : nth i (array_set i v l) VUndefined = v.
Proof.
  revert l. induction i as [|i IH]; intros [|x l]; simpl; auto.
Qed.

Lemma array_set_nth i l :
  (i < List.length l)%nat -> array_set i (nth i l VUndefined) l = l.
Proof.
  revert l. induction i as [|i IH]; intros [|x l]; simpl; intros H;
    try lia; auto.
  f_equal. apply IH. lia.
Qed.

(** Only an object or an array has a property that is itself an object
    or an array. *)
Lemma get_prop_object o k v :
  get_prop o k = Normal v -> is_object v = true ->
  match o with
  | VObj ps => props_get k ps = Some v
  | VArr l => exists i, array_index k = Some i /\
                        (N.to_nat i < List.length l)%nat /\ nth (N.to_nat i) l VUndefined = v
  | _ => False
  end.
Proof.
  destruct o as [| |b|n|s|l|ps]; simpl; try discriminate.
  - intros [= <-]; discriminate.
  - intros [= <-]; discriminate.
  - destruct (array_index k).
    + destruct (String.get _ s); intros [= <-]; discriminate.
    + destruct (String.eqb k "length"); intros [= <-]; discriminate.
  - destruct (array_index k) as [i|].
    + intros [= <-] Hobj. exists i. split; [reflexivity|]. split; [|reflexivity].
      destruct (Nat.lt_ge_cases (N.to_nat i) (List.length l)) as [|Hge]; [assumption|].
      rewrite nth_overflow in Hobj by exact Hge. discriminate.
    + destruct (String.eqb k "length"); intros [= <-]; discriminate.
  - destruct (props_get k ps); intros [= <-]; [reflexivity | discriminate].
Qed.

Lemma get_prop_object_parent o k v :
  get_prop o k = Normal v -> is_object v = true -> is_object o = true.
Proof.
  intros H Hv. pose proof (get_prop_object _ _ _ H Hv) as G.
  destruct o; simpl in *; tauto.
Qed.

(** Putting back a child that was written to: the parent then holds the
    new child where the old one was. *)
Lemma get_put_back o k v v' :
  get_prop o k = Normal v -> is_object v = true ->
  get_prop (put_back o k v') k = Normal v'.
Proof.
  intros H Hv. pose proof (get_prop_object _ _ _ H Hv) as G.
  destruct o as [| |b|n|s|l|ps]; simpl in *; try contradiction.
  - destruct G as (i & Hi & Hlt & _). rewrite Hi.
    apply Nat.ltb_lt in Hlt. rewrite Hlt. simpl. rewrite Hi.
    now rewrite nth_array_set.
  - now rewrite (props_get_replace_present _ _ _ _ G).
Qed.

(** Putting back a child that was not written to changes nothing. *)
Lemma put_back_same o k v : get_prop o k = Normal v -> put_back o k v = o.
Proof.
  destruct o as [| |b|n|s|l|ps]; simpl; try reflexivity.
  - destruct (array_index k) as [i|]; [|reflexivity].
    intros [= <-]. destruct (N.to_nat i <? List.length l)%nat eqn:E; [|reflexivity].
    apply Nat.ltb_lt in E. now rewrite array_set_nth.
  - destruct (props_get k ps) eqn:E; intros [= <-].
    + now rewrite props_replace_same.
    + now rewrite props_replace_absent.
Qed.

Lemma lookup_path_app root p q :
  lookup_path root (p ++ q) = (cur <- lookup_path root p ;; lookup_path cur q)%js.
Proof.
  revert root. induction p as [|seg p IH]; intros root; simpl; [reflexivity|].
  destruct (get_prop root (prop_key seg)); simpl; auto.
Qed.

Lemma lookup_path_object root p v :
  lookup_path root p = Normal v -> is_object v = true -> is_object root = true.
Proof.
  revert root. induction p as [|seg p IH]; intros root; simpl.
  - now intros [= ->].
  - destruct (get_prop root (prop_key seg)) as [next|] eqn:G; simpl; [|discriminate].
    intros H Hv. eapply get_prop_object_parent; eauto.
Qed.

Lemma update_at_throw_walk root segs op e :
  lookup_path root segs = Throw e -> update_at root segs op = Throw e.
Proof.
  revert root. induction segs as [|seg segs IH]; intros root; simpl; [discriminate|].
  destruct (get_prop root (prop_key seg)) as [next|]; simpl; [|auto].
  intros H. now rewrite (IH _ H).
Qed.

Lemma update_at_throw_op root segs op cur e :
  lookup_path root segs = Normal cur -> op cur = Throw e ->
  update_at root segs op = Throw e.
Proof.
  revert root. induction segs as [|seg segs IH]; intros root; simpl.
  - now intros [= ->].
  - destruct (get_prop root (prop_key seg)) as [next|]; simpl; [|discriminate].
    intros H Ho. now rewrite (IH _ H Ho).
Qed.

Lemma update_at_unchanged root segs op cur :
  lookup_path root segs = Normal cur -> op cur = Normal cur ->
  update_at root segs op = Normal root.
Proof.
  revert root. induction segs as [|seg segs IH]; intros root; simpl.
  - now intros [= ->].
  - destruct (get_prop root (prop_key seg)) as [next|] eqn:G; simpl; [|discriminate].
    intros H Ho. rewrite (IH _ H Ho). simpl. now rewrite (put_back_same _ _ _ G).
Qed.

Lemma update_at_lookup root segs op cur cur' :
  lookup_path root segs = Normal cur -> is_object cur = true ->
  op cur = Normal cur' ->
  exists root', update_at root segs op = Normal root' /\
                lookup_path root' segs = Normal cur'.
Proof.
  revert root. induction segs as [|seg segs IH]; intros root; simpl.
  - intros [= ->] _ Ho. eauto.
  - destruct (get_prop root (prop_key seg)) as [next|] eqn:G; simpl; [|discriminate].
    intros H Hc Ho. destruct (IH _ H Hc Ho) as (next' & U & L).
    rewrite U. simpl. eexists. split; [reflexivity|].
    rewrite (get_put_back _ _ _ next' G (lookup_path_object _ _ _ H Hc)).
    exact L.
Qed.

End PathFacts.

(** * Properties of the component *)

Section CommitFacts.
Import NodeModal Spec.

(** ** The three ways [handleSave] ends *)

Lemma handleSave_parse_error st e :
  JSON.parse (json st) = Throw e -> run handleSave st = afterFailure e st.
Proof.
  intros H. unfold run, handleSave, try_catch, saveBody, bind, getJson, lift.
  simpl. rewrite H. reflexivity.
Qed.

Lemma handleSave_edit_error st doc e :
  JSON.parse (json st) = Normal doc ->
  applyEdits (selectedNode st) (editedFields st) doc = Throw e ->
  run handleSave st = afterFailure e st.
Proof.
  intros H1 H2. unfold run, handleSave, try_catch, saveBody, bind, getJson, lift.
  simpl. rewrite H1. simpl. rewrite H2. reflexivity.
Qed.

Lemma handleSave_committed st doc doc' :
  JSON.parse (json st) = Normal doc ->
  applyEdits (selectedNode st) (editedFields st) doc = Normal doc' ->
  run handleSave st = afterSuccess doc' st.
Proof.
  intros H1 H2. unfold run, handleSave, try_catch, saveBody, bind, getJson, lift.
  simpl. rewrite H1. simpl. rewrite H2.
  unfold afterSuccess. destruct (selectedNode st) eqn:E; simpl; rewrite ?E; reflexivity.
Qed.

Lemma commitSucceeds_true st :
  commitSucceeds st = true ->
  exists doc doc', JSON.parse (json st) = Normal doc /\
    applyEdits (selectedNode st) (editedFields st) doc = Normal doc'.
Proof.
  unfold commitSucceeds, saveBody, bind, getJson, lift. simpl.
  destruct (JSON.parse (json st)) as [doc|] eqn:P; simpl; [|discriminate].
  destruct (applyEdits _ _ doc) as [doc'|] eqn:A; simpl; [|discriminate].
  intros _. eauto.
Qed.

Lemma commitSucceeds_false st :
  commitSucceeds st = false ->
  exists e, run handleSave st = afterFailure e st.
Proof.
  unfold commitSucceeds, saveBody, bind, getJson, lift. simpl.
  destruct (JSON.parse (json st)) as [doc|e] eqn:P; simpl.
  - destruct (applyEdits _ _ doc) as [doc'|e] eqn:A; simpl.
    + destruct (selectedNode st); discriminate.
    + intros _. exists e. eapply handleSave_edit_error; eauto.
  - intros _. exists e. now apply handleSave_parse_error.
Qed.

(** ** Writes that fail, writes that succeed *)

Lemma set_prop_non_object o k v :
  is_object o = false -> set_prop o k v = Throw TypeError.
Proof. destruct o; simpl; congruence. Qed.

Lemma assignParsed_non_object o k t :
  is_object o = false -> assignParsed o k t = Throw TypeError.
Proof.
  intros H. unfold assignParsed.
  destruct (JSON.parse _); simpl; rewrite ?(set_prop_non_object _ _ _ H);
    reflexivity.
Qed.

Lemma parse_undefined : JSON.parse "undefined" = Throw SyntaxError.
Proof. reflexivity. Qed.

Lemma assignParsed_obj ps k t :
  assignParsed (VObj ps) k t = Normal (VObj (props_set k (parsedOrRaw t) ps)).
Proof.
  unfold assignParsed, parsedOrRaw. destruct t as [s|].
  - destruct (JSON.parse s); reflexivity.
  - rewrite parse_undefined. reflexivity.
Qed.

Lemma assignParsed_arr l k i t :
  array_index k = Some i ->
  assignParsed (VArr l) k t = Normal (VArr (array_set (N.to_nat i) (parsedOrRaw t) l)).
Proof.
  intros Hi. unfold assignParsed, parsedOrRaw. destruct t as [s|].
  - destruct (JSON.parse s); simpl; rewrite Hi; reflexivity.
  - rewrite parse_undefined. simpl. rewrite Hi. reflexivity.
Qed.

Lemma assignFields_keys f keys ps :
  fold_left (fun acc k => (t <- acc ;; assignParsed t k (props_get k f))%js)
    keys (Normal (VObj ps))
  = Normal (VObj (fold_left
                    (fun acc k => props_set k (parsedOrRaw (props_get k f)) acc)
                    keys ps)).
Proof.
  revert ps. induction keys as [|k keys IH]; intros ps; simpl; [reflexivity|].
  rewrite assignParsed_obj. apply IH.
Qed.

Lemma assignFields_obj f ps :
  assignFields f (VObj ps) = Normal (VObj (writtenFields f ps)).
Proof. apply assignFields_keys. Qed.

Lemma fold_set_get (g : string -> val) keys ps k :
  props_get k (fold_left (fun acc k' => props_set k' (g k') acc) keys ps)
  = if existsb (String.eqb k) keys then Some (g k) else props_get k ps.
Proof.
  revert ps. induction keys as [|k' keys IH]; intros ps; simpl; [reflexivity|].
  rewrite IH, props_get_set.
  destruct (String.eqb k k') eqn:E; simpl.
  - apply String.eqb_eq in E; subst k'. now destruct (existsb _ keys).
  - reflexivity.
Qed.

Lemma existsb_keys {A} k (l : list (string * A)) :
  existsb (String.eqb k) (props_keys l) = props_mem k l.
Proof.
  unfold props_mem. induction l as [|[k' v] l IH]; simpl; [reflexivity|].
  destruct (String.eqb k k'); simpl; auto.
Qed.

(** After the writes a buffered key holds its parsed-or-raw value and
    every other field what it held before. *)
Lemma writtenFields_get f ps k :
  props_get k (writtenFields f ps)
  = if props_mem k f then Some (parsedOrRaw (props_get k f)) else props_get k ps.
Proof.
  unfold writtenFields.
  rewrite (fold_set_get (fun k' => parsedOrRaw (props_get k' f))).
  now rewrite existsb_keys.
Qed.

(** A non-empty path is its parent walk followed by its last segment. *)
Lemma lookup_last doc (p : list Segment) seg v :
  p <> [] ->
  lookup_path doc p = Normal v ->
  exists cur, lookup_path doc (removelast p) = Normal cur /\
              get_prop cur (prop_key (last p seg)) = Normal v.
Proof.
  intros Hp H. rewrite (app_removelast_last seg Hp), lookup_path_app in H.
  destruct (lookup_path doc (removelast p)) as [cur|]; simpl in H; [|discriminate].
  exists cur. split; [reflexivity|].
  destruct (get_prop cur (prop_key (last p seg))); simpl in H; congruence.
Qed.

Lemma lookup_snoc doc (p : list Segment) seg cur :
  p <> [] ->
  lookup_path doc (removelast p) = Normal cur ->
  lookup_path doc p = get_prop cur (prop_key (last p seg)).
Proof.
  intros Hp H. rewrite (app_removelast_last seg Hp) at 1.
  rewrite lookup_path_app, H. simpl.
  now destruct (get_prop cur (prop_key (last p seg))).
Qed.

(** ** Commit on an object-shaped node whose address holds an object *)

Lemma applyEdits_object nd f doc fields :
  isPrimitiveNode (text nd) = false ->
  lookup_path doc (nodePath nd) = Normal (VObj fields) ->
  exists doc', applyEdits (Some nd) f doc = Normal doc' /\
    lookup_path doc' (nodePath nd) = Normal (VObj (writtenFields f fields)).
Proof.
  intros Hshape. unfold applyEdits, nodePath.
  destruct (path nd) as [[|seg segs]|]; simpl lookup_path at 1.
  - intros [= ->]. rewrite assignFields_obj. eauto.
  - set (p := seg :: segs). intros H.
    assert (Hp : p <> []) by discriminate.
    destruct (lookup_last _ _ seg _ Hp H) as (cur & Hcur & Hget).
    assert (Hobj : is_object cur = true)
      by (eapply get_prop_object_parent; eauto).
    assert (Hop : writeNode (text nd) f (prop_key (last p seg)) cur
                  = Normal (put_back cur (prop_key (last p seg))
                              (VObj (writtenFields f fields)))).
    { unfold writeNode. rewrite Hshape, Hget. simpl.
      now rewrite assignFields_obj. }
    destruct (update_at_lookup _ _ _ _ _ Hcur Hobj Hop) as (doc' & U & L).
    exists doc'. split; [exact U|].
    rewrite (lookup_snoc _ _ seg _ Hp L).
    eapply get_put_back; eauto.
  - intros [= ->]. rewrite assignFields_obj. eauto.
Qed.

(** ** Commit on a single-value node below a container *)

Lemma applyEdits_scalar nd f doc seg segs parent :
  isPrimitiveNode (text nd) = true ->
  path nd = Some (seg :: segs) ->
  lookup_path doc (removelast (seg :: segs)) = Normal parent ->
  (exists ps, parent = VObj ps) \/
  (exists l i, parent = VArr l /\
               array_index (prop_key (last (seg :: segs) seg)) = Some i) ->
  exists doc', applyEdits (Some nd) f doc = Normal doc' /\
    lookup_path doc' (seg :: segs) = Normal (parsedOrRaw (props_get "value" f)).
Proof.
  intros Hshape Hpath Hcur Hparent. unfold applyEdits. rewrite Hpath.
  set (p := seg :: segs) in *.
  assert (Hp : p <> []) by discriminate.
  set (k := prop_key (last p seg)) in *.
  set (v := parsedOrRaw (props_get "value" f)).
  assert (Hop : exists parent',
             writeNode (text nd) f k parent = Normal parent' /\
             get_prop parent' k = Normal v /\ is_object parent = true).
  { unfold writeNode. rewrite Hshape.
    destruct Hparent as [(ps & ->) | (l & i & -> & Hi)].
    - rewrite assignParsed_obj. eexists. split; [reflexivity|]. split; [|reflexivity].
      simpl. now rewrite props_get_set, String.eqb_refl.
    - rewrite (assignParsed_arr _ _ _ _ Hi). eexists. split; [reflexivity|].
      split; [|reflexivity]. simpl. rewrite Hi. now rewrite nth_array_set. }
  destruct Hop as (parent' & Hop & Hget & Hobj).
  destruct (update_at_lookup _ _ _ _ _ Hcur Hobj Hop) as (doc' & U & L).
  exists doc'. split; [exact U|].
  now rewrite (lookup_snoc _ _ seg _ Hp L).
Qed.

End CommitFacts.

(** * The claims *)

Section Claims.
Import NodeModal Spec Examples.

(** ** Rendering a path *)

Lemma append_assoc (s1 s2 s3 : string) : (s1 ++ s2) ++ s3 = s1 ++ (s2 ++ s3).
Proof. induction s1 as [|c s1 IH]; simpl; [reflexivity | now rewrite IH]. Qed.

Lemma append_nil_r (s : string) : s ++ "" = s.
Proof. induction s as [|c s IH]; simpl; [reflexivity | now rewrite IH]. Qed.

Lemma bracketed_text seg : bracketed seg = "[" ++ to_string (segmentText seg) ++ "]".
Proof.
  destruct seg as [s|n]; simpl; [|reflexivity].
  now rewrite append_assoc.
Qed.

Lemma join_brackets x l :
  "[" ++ join "][" (x :: l) ++ "]" = flatten (map (fun s => "[" ++ s ++ "]") (x :: l)).
Proof.
  revert x. induction l as [|y l IH]; intros x.
  - simpl. now rewrite append_nil_r.
  - change (join "][" (x :: y :: l)) with (x ++ "][" ++ join "][" (y :: l)).
    change (flatten (map (fun s => "[" ++ s ++ "]") (x :: y :: l)))
      with (("[" ++ x ++ "]") ++ flatten (map (fun s => "[" ++ s ++ "]") (y :: l))).
    rewrite <- IH. simpl. rewrite !append_assoc. reflexivity.
Qed.

(** C8. [jsonPathToString] is a total function to strings.  No path and
    the empty path render as the root symbol [$]; a non-empty path
    renders as [$] followed by one bracketed segment per path segment, a
    string segment in double quotes and a numeric segment bare; the path
    [["customer", 0]] renders as [$["customer"][0]]. *)
Theorem jsonPathToString_render :
  jsonPathToString None = "$" /\
  jsonPathToString (Some []) = "$" /\
  (forall seg p,
      jsonPathToString (Some (seg :: p)) = "$" ++ flatten (map bracketed (seg :: p))) /\
  jsonPathToString (Some [SegKey "customer"; SegIndex 0])
  = "$[" ++ JSON.quote "customer" ++ "][0]".
Proof.
  repeat split; try reflexivity.
  intros seg p. unfold jsonPathToString. rewrite map_map.
  transitivity
    ("$" ++ "[" ++ join "][" (map (fun x => to_string (segmentText x)) (seg :: p)) ++ "]");
    [reflexivity|].
  f_equal. change (map (fun x => to_string (segmentText x)) (seg :: p))
    with (to_string (segmentText seg) :: map (fun x => to_string (segmentText x)) p).
  rewrite join_brackets.
  change (to_string (segmentText seg) :: map (fun x => to_string (segmentText x)) p)
    with (map (fun x => to_string (segmentText x)) (seg :: p)).
  rewrite map_map. unfold flatten. f_equal.
  apply map_ext. intros a. now rewrite bracketed_text.
Qed.

(** ** Normalising rows *)

(** The rows the specification keeps are the rows the loops of the code
    let through. *)
Lemma is_kept_code row : is_kept row = (is_flat row && has_key row)%bool.
Proof.
  unfold is_kept, is_flat, has_key. now destruct (type row), (key row).
Qed.

Lemma has_key_keyless row : has_key row = false <-> keyless row.
Proof.
  unfold has_key, keyless. destruct (key row) as [k|].
  - split.
    + intros H. right. f_equal. apply String.eqb_eq.
      now destruct (String.eqb k "").
    + intros [H | [= ->]]; [discriminate | reflexivity].
  - split; [now left | reflexivity].
Qed.


Lemma fold_left_ext {A B} (f g : A -> B -> A) l a :
  (forall a b, f a b = g a b) -> fold_left f l a = fold_left g l a.
Proof.
  intros H. revert a. induction l as [|b l IH]; intros a; simpl; [reflexivity|].
  now rewrite H, IH.
Qed.








(** When no kept row is keyed [__proto__] every assignment creates or
    replaces an own property. *)
Lemma normalizeObject_kept rows :
  (forall row, In row rows -> is_kept row = true -> key_of row <> "__proto__") ->
  normalizeObject rows
  = fold_left (fun acc row => if is_kept row then props_set (key_of row) (value row) acc
                              else acc) rows [].
Proof.
  unfold normalizeObject.
  change (@nil (string * val)) with (own_props (mkLiteral [] ProtoObject)) at 2.
  generalize (mkLiteral [] ProtoObject).
  induction rows as [|row rows IH]; intros o H; simpl; [reflexivity|].
  rewrite IH by (intros r Hr; apply H; now right).
  f_equal. pose proof (H row (or_introl eq_refl)) as Hrow.
  rewrite is_kept_code in *. destruct (is_flat row); simpl; [|reflexivity].
  destruct (has_key row); simpl; [|reflexivity].
  unfold literal_assign.
  destruct (String.eqb (key_of row) "__proto__") eqn:P; simpl; [|reflexivity].
  apply String.eqb_eq in P. now destruct (Hrow eq_refl).
Qed.




(** ** The edit session around a commit *)

(** The effect and [handleCancel] both seed the buffer from the node on
    display and leave edit mode; [handleEdit] enters it; a field change
    overwrites one entry. *)
Lemma syncEffect_seeds st nd :
  opened st = true -> selectedNode st = Some nd ->
  editedFields (run syncEffect st) = toEditBuffer (text nd) /\
  isEditMode (run syncEffect st) = false /\
  selectedNode (run syncEffect st) = Some nd.
Proof.
  intros Ho Hs. unfold run, syncEffect. rewrite Ho, Hs. simpl. now rewrite Hs.
Qed.

Lemma handleCancel_seeds st nd :
  selectedNode st = Some nd ->
  editedFields (run handleCancel st) = toEditBuffer (text nd) /\
  isEditMode (run handleCancel st) = false.
Proof.
  intros Hs. unfold run, handleCancel, bind. simpl. rewrite Hs. now split.
Qed.

Lemma handleEdit_enters st :
  isEditMode (run handleEdit st) = true /\
  editedFields (run handleEdit st) = editedFields st.
Proof. now split. Qed.

Lemma handleFieldChange_get st k v k' :
  props_get k' (editedFields (run (handleFieldChange k v) st))
  = if String.eqb k' k then Some v else props_get k' (editedFields st).
Proof. unfold run, handleFieldChange. simpl. apply props_get_set. Qed.

(** The session of the specification: over [{"x":1}] the modal opens on
    the root node, the user enters edit mode, types [2] for [x] and
    saves; the document becomes [{"x":2}], pretty-printed, and the node
    on display shows [x: 2] at once. *)
Example edit_session :
  let seeded := run syncEffect openedStore in
  let typed := run (handleFieldChange "x" "2") (run handleEdit seeded) in
  let saved := run handleSave typed in
  editedFields seeded = [("x", "1")] /\
  isEditMode typed = true /\ editedFields typed = [("x", "2")] /\
  JSON.parse (contents saved) = Normal (VObj [("x", VNum 2)]) /\
  contents saved = JSON.stringify (VObj [("x", VNum 2)]) /\
  selectedNode saved = Some rebuiltRoot /\
  isEditMode saved = false /\
  toasts saved = [ToastSuccess successMessage] /\
  selectedNode (fireTimer (rebuild [rebuiltRoot] saved)) = Some rebuiltRoot.
Proof. repeat split. Qed.

(** ** The outcome of a commit *)

(** A commit ends in one of two ways. *)
Lemma handleSave_outcome st :
  (exists doc doc',
      JSON.parse (json st) = Normal doc /\
      applyEdits (selectedNode st) (editedFields st) doc = Normal doc' /\
      run handleSave st = afterSuccess doc' st) \/
  (exists e, run handleSave st = afterFailure e st).
Proof.
  destruct (commitSucceeds st) eqn:C.
  - left. destruct (commitSucceeds_true _ C) as (doc & doc' & P & A).
    exists doc, doc'. split; [exact P|]. split; [exact A|].
    exact (handleSave_committed _ _ _ P A).
  - right. exact (commitSucceeds_false _ C).
Qed.

Lemma afterSuccess_committed doc' st : committed doc' st (afterSuccess doc' st).
Proof. repeat split. Qed.

Lemma toast_outcomes_differ (l : list Toast) :
  (l ++ [ToastSuccess successMessage])%list <> (l ++ [ToastError failureMessage])%list.
Proof. intros H. apply app_inv_head in H. discriminate. Qed.

Lemma writeNode_throws rows f k parent :
  is_object parent = false ->
  isPrimitiveNode rows = true \/ parent = VUndefined \/ parent = VNull ->
  writeNode rows f k parent = Throw TypeError.
Proof.
  intros Hobj H. unfold writeNode. destruct (isPrimitiveNode rows).
  - now apply assignParsed_non_object.
  - destruct H as [H | [-> | ->]]; [discriminate | reflexivity | reflexivity].
Qed.

Lemma resolutionThrows_unreachable doc p :
  resolutionThrows doc p = true -> reachesContainer doc p = false.
Proof.
  unfold resolutionThrows, reachesContainer.
  destruct (resolveParent doc p) as [[| | | | | |]|]; simpl; congruence.
Qed.

(** When the walk to the parent throws or ends at [undefined] or [null],
    or ends at a primitive and the node is a single value, an exception
    leaves the [try] block before any store is written. *)
Lemma unresolved_walk_fails st nd seg segs doc :
  selectedNode st = Some nd ->
  path nd = Some (seg :: segs) ->
  JSON.parse (json st) = Normal doc ->
  reachesContainer doc (seg :: segs) = false ->
  resolutionThrows doc (seg :: segs) = true \/ isPrimitiveNode (text nd) = true ->
  exists e, run handleSave st = afterFailure e st.
Proof.
  intros Hsel Hpath Hparse Hreach Hwhy.
  assert (exists e, applyEdits (selectedNode st) (editedFields st) doc = Throw e)
    as (e & He).
  { rewrite Hsel. unfold applyEdits. rewrite Hpath.
    unfold reachesContainer, resolutionThrows, resolveParent in *.
    destruct (lookup_path doc (removelast (seg :: segs))) as [parent|e] eqn:L.
    - exists TypeError. eapply update_at_throw_op; [exact L|].
      apply writeNode_throws; [exact Hreach|].
      destruct Hwhy as [H|H]; [|now left].
      right. destruct parent; try discriminate; auto.
    - exists e. now apply update_at_throw_walk. }
  exists e. exact (handleSave_edit_error _ _ _ Hparse He).
Qed.

(** The claim as stated fails: the commit of [staleStore] is attempted
    in edit mode, the address of its node reaches no container (the
    walk to the parent ends at the number 5), and yet the component
    leaves edit mode, with a success toast and no failure reported. *)
Lemma unreachable_container_leaves_edit_mode :
  isEditMode staleStore = true /\
  JSON.parse (json staleStore) = Normal (VObj [("a", VNum 5)]) /\
  path staleNode = Some [SegKey "a"; SegKey "b"] /\
  reachesContainer (VObj [("a", VNum 5)]) [SegKey "a"; SegKey "b"] = false /\
  isEditMode (run handleSave staleStore) = false /\
  toasts (run handleSave staleStore) = [ToastSuccess successMessage].
Proof. repeat split. Qed.

(** C6, amended.  A commit attempt reports exactly one outcome.  When it
    reports success the component has left edit mode; when it reports
    failure, edit mode and the edit buffer are what they were before the
    attempt (a commit attempted in edit mode stays in edit mode, with its
    buffer intact) and nothing but the failure report was added.  Both
    outcomes are determined by the input: a commit on an object-shaped
    node whose address holds an object reports success, and a commit
    whose walk to the parent container, reading no inherited member,
    reads a property of [undefined] or [null] or ends at one of them
    reports failure. *)
Theorem commit_transition st :
  let saved := run handleSave st in
  (toasts saved = (toasts st ++ [ToastSuccess successMessage])%list \/
   toasts saved = (toasts st ++ [ToastError failureMessage])%list) /\
  (toasts saved = (toasts st ++ [ToastSuccess successMessage])%list ->
   isEditMode saved = false) /\
  (toasts saved = (toasts st ++ [ToastError failureMessage])%list ->
   isEditMode saved = isEditMode st /\
   editedFields saved = editedFields st /\
   exists e, saved = afterFailure e st) /\
  (forall nd doc fields,
      selectedNode st = Some nd ->
      isPrimitiveNode (text nd) = false ->
      JSON.parse (json st) = Normal doc ->
      lookup_path doc (nodePath nd) = Normal (VObj fields) ->
      toasts saved = (toasts st ++ [ToastSuccess successMessage])%list) /\
  (forall nd seg segs doc,
      selectedNode st = Some nd ->
      path nd = Some (seg :: segs) ->
      JSON.parse (json st) = Normal doc ->
      plainWalk doc (removelast (seg :: segs)) = true ->
      resolutionThrows doc (seg :: segs) = true ->
      toasts saved = (toasts st ++ [ToastError failureMessage])%list).
Proof.
  cbv zeta. split; [|split; [|split; [|split]]].
  - destruct (handleSave_outcome st) as [(doc & doc' & _ & _ & ->) | (e & ->)];
      [left | right]; reflexivity.
  - destruct (handleSave_outcome st) as [(doc & doc' & _ & _ & ->) | (e & ->)].
    + reflexivity.
    + simpl. intros H. symmetry in H. now apply toast_outcomes_differ in H.
  - destruct (handleSave_outcome st) as [(doc & doc' & _ & _ & ->) | (e & ->)].
    + simpl. intros H. now apply toast_outcomes_differ in H.
    + intros _. repeat split. now exists e.
  - intros nd doc fields Hsel Hshape Hparse Hlook.
    destruct (applyEdits_object nd (editedFields st) doc fields Hshape Hlook)
      as (doc' & A & _).
    rewrite <- Hsel in A. now rewrite (handleSave_committed _ _ _ Hparse A).
  - intros nd seg segs doc Hsel Hpath Hparse _ Hthrows.
    destruct (unresolved_walk_fails st nd seg segs doc Hsel Hpath Hparse
                (resolutionThrows_unreachable _ _ Hthrows) (or_introl Hthrows))
      as (e & ->).
    reflexivity.
Qed.

(** Both outcomes occur: the commit of [{"x":1}] with [x] edited to [2]
    reports success and leaves edit mode, the commit of a node whose
    walk ends at [null] reports failure and stays in edit mode. *)
Lemma commit_transition_witness :
  (isEditMode rootStore = true /\
   toasts (run handleSave rootStore) = [ToastSuccess successMessage] /\
   isEditMode (run handleSave rootStore) = false) /\
  (isEditMode nullStore = true /\
   toasts (run handleSave nullStore) = [ToastError failureMessage] /\
   isEditMode (run handleSave nullStore) = true /\
   editedFields (run handleSave nullStore) = editedFields nullStore).
Proof.
  split.
  - split; [reflexivity|].
    pose proof (proj1 (proj2 (proj2 (proj2 (commit_transition rootStore))))
                  rootNode (VObj [("x", VNum 1)]) [("x", VNum 1)]
                  eq_refl eq_refl eq_refl eq_refl) as Hok.
    split; [exact Hok|].
    exact (proj1 (proj2 (commit_transition rootStore)) Hok).
  - split; [reflexivity|].
    pose proof (proj2 (proj2 (proj2 (proj2 (commit_transition nullStore))))
                  staleNode (SegKey "a") [SegKey "b"] (VObj [("a", VNull)])
                  eq_refl eq_refl eq_refl eq_refl eq_refl) as Hko.
    split; [exact Hko|].
    destruct (proj1 (proj2 (proj2 (commit_transition nullStore))) Hko) as (Hm & Hb & _).
    split; [exact Hm | exact Hb].
Defined.

(** ** Failed address resolution *)

(** The claim as stated fails: over [{"a":5}] the node addressed at
    [a.b] has no container to resolve to (the walk to its parent ends at
    the number 5), yet the commit reports success and no failure,
    replaces the node on display and replaces the stored text. *)
Lemma unreachable_container_commit_succeeds :
  JSON.parse (json staleStore) = Normal (VObj [("a", VNum 5)]) /\
  path staleNode = Some [SegKey "a"; SegKey "b"] /\
  reachesContainer (VObj [("a", VNum 5)]) [SegKey "a"; SegKey "b"] = false /\
  toasts (run handleSave staleStore) = [ToastSuccess successMessage] /\
  selectedNode (run handleSave staleStore) <> selectedNode staleStore /\
  contents (run handleSave staleStore) <> contents staleStore.
Proof.
  repeat split; try reflexivity; vm_compute; discriminate.
Qed.

(** C1, amended.  Take a commit whose walk to the parent container reads
    no inherited member (each key is read from [undefined] or [null], is
    an own property of the value it is read from, or is a name that no
    prototype of that value defines), so that the walk of the model is
    the walk of the platform.  When the walk reads a property of
    [undefined] or [null] or ends at one of them, or when it ends at a
    primitive and the node is a single value whose final key is not
    [__proto__], the commit aborts atomically: every store is what it
    was before the attempt, the stored text and the node on display
    among them, except for exactly one failure toast and the logged
    error. *)
Theorem unresolved_commit_aborts st nd seg segs doc :
  selectedNode st = Some nd ->
  path nd = Some (seg :: segs) ->
  JSON.parse (json st) = Normal doc ->
  plainWalk doc (removelast (seg :: segs)) = true ->
  reachesContainer doc (seg :: segs) = false ->
  resolutionThrows doc (seg :: segs) = true \/
  (isPrimitiveNode (text nd) = true /\ finalKey (seg :: segs) <> "__proto__") ->
  exists e,
    run handleSave st = afterFailure e st /\
    contents (run handleSave st) = contents st /\
    json (run handleSave st) = json st /\
    selectedNode (run handleSave st) = selectedNode st /\
    nodes (run handleSave st) = nodes st /\
    isEditMode (run handleSave st) = isEditMode st /\
    editedFields (run handleSave st) = editedFields st /\
    toasts (run handleSave st) = (toasts st ++ [ToastError failureMessage])%list.
Proof.
  intros Hsel Hpath Hparse _ Hreach Hwhy.
  destruct (unresolved_walk_fails st nd seg segs doc Hsel Hpath Hparse Hreach)
    as (e & He).
  { destruct Hwhy as [H | [H _]]; [now left | now right]. }
  exists e. rewrite He. repeat split.
Qed.

Lemma unresolved_commit_aborts_witness :
  exists e,
    run handleSave nullStore = afterFailure e nullStore /\
    contents (run handleSave nullStore) = contents nullStore /\
    json (run handleSave nullStore) = json nullStore /\
    selectedNode (run handleSave nullStore) = selectedNode nullStore /\
    nodes (run handleSave nullStore) = nodes nullStore /\
    isEditMode (run handleSave nullStore) = isEditMode nullStore /\
    editedFields (run handleSave nullStore) = editedFields nullStore /\
    toasts (run handleSave nullStore) = (toasts nullStore ++ [ToastError failureMessage])%list.
Proof.
  apply (unresolved_commit_aborts nullStore staleNode (SegKey "a") [SegKey "b"]
           (VObj [("a", VNull)])); try reflexivity.
  left. reflexivity.
Defined.

(** ** An address that holds no object *)

(** The node shown at once for an object-shaped node. *)
Lemma optimisticNode_shows nd f :
  isPrimitiveNode (text nd) = false -> showsEdits nd f (optimisticNode nd f).
Proof.
  intros Hshape. unfold showsEdits, optimisticNode. rewrite Hshape. cbn [id path text].
  split; [reflexivity|]. split; [reflexivity|].
  clear Hshape. induction (text nd) as [|row rows IH]; simpl; [constructor|].
  constructor; [|exact IH]. unfold rowShows.
  destruct (has_key row) eqn:K, (props_mem (key_of row) f) eqn:M; simpl;
    repeat split; try reflexivity; try discriminate.
  intros [H | [H _]]; [|discriminate].
  apply has_key_keyless in H. congruence.
Qed.

(** C9. On an object-shaped node with a non-empty path whose address
    holds a value that is not a non-null object, the commit writes
    nothing: the document after the edits is the document as it was
    parsed, and the text stored is its serialisation.  And yet the commit
    reports success, leaves edit mode and installs the optimistic node,
    with no failure reported: the node on display is the node that was
    selected with every buffered row showing its edited value and every
    other row as it was, whatever the document holds, so that the two
    can differ. *)
Theorem silent_commit_on_non_object st nd seg segs doc target :
  selectedNode st = Some nd ->
  path nd = Some (seg :: segs) ->
  isPrimitiveNode (text nd) = false ->
  JSON.parse (json st) = Normal doc ->
  lookup_path doc (seg :: segs) = Normal target ->
  is_object target = false ->
  applyEdits (Some nd) (editedFields st) doc = Normal doc /\
  committed doc st (run handleSave st) /\
  nodes (run handleSave st) = nodes st /\
  exists shown,
    selectedNode (run handleSave st) = Some shown /\
    showsEdits nd (editedFields st) shown.
Proof.
  intros Hsel Hpath Hshape Hparse Hlook Htarget.
  assert (Hedit : applyEdits (Some nd) (editedFields st) doc = Normal doc).
  { unfold applyEdits. rewrite Hpath.
    destruct (lookup_last _ (seg :: segs) seg _ ltac:(discriminate) Hlook)
      as (cur & Hcur & Hget).
    eapply update_at_unchanged; [exact Hcur|].
    unfold writeNode. rewrite Hshape, Hget. simpl. now rewrite Htarget. }
  split; [exact Hedit|].
  rewrite <- Hsel in Hedit.
  rewrite (handleSave_committed _ _ _ Hparse Hedit).
  split; [apply afterSuccess_committed|]. split; [reflexivity|].
  exists (optimisticNode nd (editedFields st)).
  split; [unfold afterSuccess; simpl; now rewrite Hsel|].
  exact (optimisticNode_shows nd (editedFields st) Hshape).
Qed.

(** The node on display then differs from the stored document: its row
    [x] shows 2, the value typed, where the node had 1; the document
    stored is [{"a":5}], which has no [x] at the address [a] and none at
    all. *)
Lemma silent_commit_on_non_object_witness :
  (applyEdits (Some numberNode) (editedFields numberStore) (VObj [("a", VNum 5)])
   = Normal (VObj [("a", VNum 5)]) /\
   committed (VObj [("a", VNum 5)]) numberStore (run handleSave numberStore) /\
   nodes (run handleSave numberStore) = nodes numberStore /\
   exists shown,
     selectedNode (run handleSave numberStore) = Some shown /\
     showsEdits numberNode (editedFields numberStore) shown) /\
  text numberNode = [mkRow (Some "x") (VNum 1) TNumber] /\
  selectedNode (run handleSave numberStore)
  = Some (mkNode "3" [mkRow (Some "x") (VNum 2) TNumber] (Some [SegKey "a"])) /\
  JSON.parse (contents (run handleSave numberStore)) = Normal (VObj [("a", VNum 5)]) /\
  lookup_path (VObj [("a", VNum 5)]) [SegKey "a"; SegKey "x"] = Normal VUndefined.
Proof.
  split; [|repeat split].
  apply (silent_commit_on_non_object numberStore numberNode (SegKey "a") []
           (VObj [("a", VNum 5)]) (VNum 5)); reflexivity.
Defined.

(** ** Deferred reconciliation *)

Lemma find_absent nd (l : list NodeData) :
  (forall n, In n l -> id n <> id nd) ->
  find (fun n => String.eqb (id n) (id nd)) l = None.
Proof.
  intros H. induction l as [|n l IH]; simpl; [reflexivity|].
  destruct (String.eqb (id n) (id nd)) eqn:E.
  - apply String.eqb_eq in E. now destruct (H n (or_introl eq_refl)).
  - apply IH. intros m Hm. apply H. now right.
Qed.

(** C7. After a successful commit on the node [nd], if the rebuilt
    collection has no node with the identifier of [nd] when the
    reconciliation of that commit fires, the selected node is still the
    optimistic node the commit installed: it is not cleared. *)
Theorem reconciliation_miss_keeps_optimistic st nd newNodes :
  selectedNode st = Some nd ->
  commitSucceeds st = true ->
  timers st = [] ->
  (forall n, In n newNodes -> id n <> id nd) ->
  selectedNode (run handleSave st) = Some (optimisticNode nd (editedFields st)) /\
  selectedNode (fireTimer (rebuild newNodes (run handleSave st)))
  = Some (optimisticNode nd (editedFields st)).
Proof.
  intros Hsel Hok Htimers Habsent.
  destruct (commitSucceeds_true _ Hok) as (doc & doc' & P & A).
  rewrite (handleSave_committed _ _ _ P A).
  unfold afterSuccess, rebuild, fireTimer. simpl. rewrite Htimers, Hsel. simpl.
  split; [reflexivity|].
  unfold run, reconcile, bind, getNodes. simpl.
  now rewrite (find_absent nd newNodes Habsent).
Qed.

Lemma reconciliation_miss_keeps_optimistic_witness :
  selectedNode (run handleSave rootStore)
  = Some (optimisticNode rootNode (editedFields rootStore)) /\
  selectedNode (fireTimer (rebuild [otherNode] (run handleSave rootStore)))
  = Some (optimisticNode rootNode (editedFields rootStore)).
Proof.
  apply (reconciliation_miss_keeps_optimistic rootStore rootNode [otherNode]);
    try reflexivity.
  intros n [<- | []]. discriminate.
Defined.

(** The claim as stated fails: the user commits an edit of node "1",
    then selects node "9"; the rebuilt collection holds node "1"; when
    the timer fires the selection is replaced by the rebuilt node "1",
    although node "9" is the one selected. *)
Lemma reconciliation_overwrites_later_selection :
  let committed := run handleSave rootStore in
  let later := selectNode otherNode (rebuild [rebuiltRoot; otherNode] committed) in
  selectedNode later = Some otherNode /\
  id otherNode <> id rootNode /\
  selectedNode (fireTimer later) = Some rebuiltRoot /\
  selectedNode (fireTimer later) <> selectedNode later.
Proof.
  repeat split; try reflexivity; vm_compute; discriminate.
Qed.

(** C2, amended.  When the reconciliation a commit on [nd] scheduled
    fires, it looks up the identifier of [nd] in the current collection
    and, if a node carries it, installs that node as the selection; it
    does not consult the current selection, which it replaces whatever it
    is.  Only when no node carries the identifier is the selection left
    as it is.  Nothing else changes. *)
Theorem reconciliation_ignores_selection st t rest nd :
  timers st = t :: rest ->
  captured t = Some nd ->
  selectedNode (fireTimer st)
  = match find (fun n => String.eqb (id n) (id nd)) (nodes st) with
    | Some updatedNode => Some updatedNode
    | None => selectedNode st
    end /\
  nodes (fireTimer st) = nodes st /\
  contents (fireTimer st) = contents st /\
  isEditMode (fireTimer st) = isEditMode st /\
  editedFields (fireTimer st) = editedFields st /\
  toasts (fireTimer st) = toasts st /\
  timers (fireTimer st) = rest.
Proof.
  intros Ht Hc. unfold fireTimer. rewrite Ht, Hc.
  unfold run, reconcile, bind, getNodes. simpl.
  destruct (find _ (nodes st)); simpl; repeat split.
Qed.

Lemma reconciliation_ignores_selection_witness :
  let later :=
    selectNode otherNode (rebuild [rebuiltRoot; otherNode] (run handleSave rootStore)) in
  selectedNode (fireTimer later)
  = match find (fun n => String.eqb (id n) (id rootNode)) (nodes later) with
    | Some updatedNode => Some updatedNode
    | None => selectedNode later
    end /\
  nodes (fireTimer later) = nodes later /\
  contents (fireTimer later) = contents later /\
  isEditMode (fireTimer later) = isEditMode later /\
  editedFields (fireTimer later) = editedFields later /\
  toasts (fireTimer later) = toasts later /\
  timers (fireTimer later) = [].
Proof.
  exact (reconciliation_ignores_selection
           (selectNode otherNode
              (rebuild [rebuiltRoot; otherNode] (run handleSave rootStore)))
           (mkTimer 500 (Some rootNode)) [] rootNode eq_refl eq_refl).
Defined.

(** ** What a commit writes *)

(** On an object-shaped node whose address holds an object, the commit
    succeeds and the object then holds every buffered entry as its
    parsed-or-raw value. *)
Lemma commit_writes_object_fields st nd doc fields :
  selectedNode st = Some nd ->
  isPrimitiveNode (text nd) = false ->
  JSON.parse (json st) = Normal doc ->
  lookup_path doc (nodePath nd) = Normal (VObj fields) ->
  exists doc',
    run handleSave st = afterSuccess doc' st /\
    lookup_path doc' (nodePath nd)
    = Normal (VObj (writtenFields (editedFields st) fields)).
Proof.
  intros Hsel Hshape Hparse Hlook.
  destruct (applyEdits_object nd (editedFields st) doc fields Hshape Hlook)
    as (doc' & A & L).
  exists doc'. split; [|exact L].
  rewrite <- Hsel in A. exact (handleSave_committed _ _ _ Hparse A).
Qed.

(** On a single-value node with a non-empty path whose parent holds its
    final key, the commit succeeds and the address then holds the
    parsed-or-raw value of the [value] entry. *)
Lemma commit_replaces_scalar st nd seg segs doc parent :
  selectedNode st = Some nd ->
  isPrimitiveNode (text nd) = true ->
  path nd = Some (seg :: segs) ->
  JSON.parse (json st) = Normal doc ->
  resolveParent doc (seg :: segs) = Normal parent ->
  holdsKey parent (finalKey (seg :: segs)) = true ->
  exists doc',
    run handleSave st = afterSuccess doc' st /\
    lookup_path doc' (seg :: segs)
    = Normal (parsedOrRaw (props_get "value" (editedFields st))).
Proof.
  intros Hsel Hshape Hpath Hparse Hparent Hholds.
  destruct (applyEdits_scalar nd (editedFields st) doc seg segs parent Hshape Hpath Hparent)
    as (doc' & A & L).
  { unfold holdsKey, finalKey in Hholds.
    destruct parent; try discriminate; [right | left; eauto].
    destruct (array_index _) as [i|] eqn:E; [eauto | discriminate]. }
  exists doc'. split; [|exact L].
  rewrite <- Hsel in A. exact (handleSave_committed _ _ _ Hparse A).
Qed.

(** C4, at the failing input.  The document is [42], the node its root,
    a single value with the empty path, and the buffer holds [43] under
    [value]: the commit takes the root branch, assigns [fullJson.value]
    on a number, which throws a [TypeError] in strict mode, and reports a
    failure; the addressed value is not replaced. *)
Theorem scalar_root_commit_fails :
  isPrimitiveNode (text scalarNode) = true /\
  path scalarNode = Some [] /\
  JSON.parse (json scalarStore) = Normal (VNum 42) /\
  parsedOrRaw (props_get "value" (editedFields scalarStore)) = VNum 43 /\
  applyEdits (Some scalarNode) (editedFields scalarStore) (VNum 42) = Throw TypeError /\
  run handleSave scalarStore = afterFailure TypeError scalarStore /\
  contents (run handleSave scalarStore) = "42".
Proof. repeat split. Qed.

(** ** Seeding the buffer and committing it unchanged *)

Lemma primitive_assign_no_proto {A} k (v : A) l :
  props_mem "__proto__" l = false ->
  props_mem "__proto__" (primitive_assign k v l) = false.
Proof.
  intros H. unfold primitive_assign.
  destruct (String.eqb k "__proto__") eqn:E; simpl.
  - now rewrite (proj1 (String.eqb_eq _ _) E), H.
  - unfold props_mem in *. rewrite props_get_set, String.eqb_sym, E. exact H.
Qed.

(** A fold that assigns one text per kept row leaves, under each key but
    [__proto__], what the last kept row with that key supplies, and
    nothing under [__proto__]. *)
Lemma fold_seeded_get {A} (g : NodeRow -> A) rows acc k :
  props_mem "__proto__" acc = false ->
  props_get k
    (fold_left (fun acc row => if is_kept row
                               then primitive_assign (key_of row) (g row) acc
                               else acc) rows acc)
  = if String.eqb k "__proto__" then None
    else match keptRow k rows with
         | Some r => Some (g r)
         | None => props_get k acc
         end.
Proof.
  revert acc. induction rows as [|row rows IH]; intros acc Hacc; simpl.
  - destruct (String.eqb k "__proto__") eqn:E; [|reflexivity].
    apply String.eqb_eq in E. subst k. now apply props_mem_false_get.
  - rewrite IH by (destruct (is_kept row); [now apply primitive_assign_no_proto | exact Hacc]).
    destruct (String.eqb k "__proto__") eqn:E; [reflexivity|].
    destruct (keptRow k rows); [reflexivity|].
    destruct (is_kept row); simpl; [|reflexivity].
    unfold primitive_assign.
    destruct (String.eqb (key_of row) "__proto__") eqn:P; simpl.
    + rewrite (proj1 (String.eqb_eq _ _) P), Hacc. cbn [negb].
      now rewrite (String.eqb_sym "__proto__" k), E.
    + rewrite props_get_set, String.eqb_sym. now destruct (String.eqb (key_of row) k).
Qed.

Lemma seedFields_get rows k :
  props_get k (seedFields rows)
  = option_map (fun r => stringOf (value r)) (seededRow k rows).
Proof.
  unfold seedFields, seededRow.
  rewrite (fold_left_ext _
             (fun fields row =>
                if is_kept row
                then primitive_assign (key_of row) (stringOf (value row)) fields
                else fields))
    by (intros a b; now rewrite is_kept_code).
  rewrite (fold_seeded_get (fun r => stringOf (value r))) by reflexivity.
  destruct (String.eqb k "__proto__"); [reflexivity|]. now destruct (keptRow k rows).
Qed.

Lemma toEditBuffer_object rows :
  isPrimitiveNode rows = false -> toEditBuffer rows = seedFields rows.
Proof.
  intros H. destruct rows as [|row rows]; [reflexivity|].
  unfold toEditBuffer. now rewrite H.
Qed.



(** The field a seeding row supplies, after the buffer seeded from the
    rows was written back unchanged; a key no row seeds is not written. *)
Lemma seeded_field rows fields k :
  props_get k (writtenFields (seedFields rows) fields)
  = match seededRow k rows with
    | Some row => Some (parsedOrRaw (Some (stringOf (value row))))
    | None => props_get k fields
    end.
Proof.
  rewrite writtenFields_get. unfold props_mem.
  rewrite seedFields_get. now destruct (seededRow k rows).
Qed.

Lemma toEditBuffer_scalar row :
  has_key row = false ->
  props_get "value" (toEditBuffer [row]) = Some (stringOf (value row)).
Proof.
  intros Hkey. unfold toEditBuffer, isPrimitiveNode. rewrite Hkey. reflexivity.
Qed.

Lemma takesKey_holdsKey parent k : takesKey parent k = true -> holdsKey parent k = true.
Proof. unfold takesKey, holdsKey, is_index. now destruct parent. Qed.




(** The claim as stated fails: the row [n] holds [null], has a key and
    a flat type, and is seeded as the empty text; but the address of its
    node holds the number 5, so the unmodified commit, which reports
    success, writes nothing: the document stored is [{"a":5}] and holds
    no empty string. *)
Lemma null_row_commit_stores_nothing :
  text nullAtNumberNode = [mkRow (Some "n") VNull TNull] /\
  path nullAtNumberNode = Some [SegKey "a"] /\
  editedFields nullAtNumberStore = toEditBuffer (text nullAtNumberNode) /\
  toEditBuffer (text nullAtNumberNode) = [("n", "")] /\
  JSON.parse (json nullAtNumberStore) = Normal (VObj [("a", VNum 5)]) /\
  toasts (run handleSave nullAtNumberStore) = [ToastSuccess successMessage] /\
  JSON.parse (contents (run handleSave nullAtNumberStore)) = Normal (VObj [("a", VNum 5)]).
Proof. repeat split. Qed.

(** C10, amended.  A row whose value is [null] or [undefined] is
    seeded as the empty text, not as the text [null]: under [value] for
    a single-value node; for any other node under its key, when the row
    is the one the input of that key is seeded from (the last row with
    that key among those with a non-empty key other than [__proto__] and
    a type other than array or object).  The empty text fails literal
    parsing and falls back to the raw text, so an unmodified commit
    stores the empty string, a string value: in the field of such a row
    when the address of the node holds an object, and at the address of
    such a single value when the path is non-empty and the parent takes
    the final key. *)
Theorem null_row_commits_empty_string :
  (forall row,
      has_key row = false -> value row = VNull \/ value row = VUndefined ->
      toEditBuffer [row] = [("value", "")]) /\
  (forall rows k row,
      isPrimitiveNode rows = false ->
      seededRow k rows = Some row ->
      value row = VNull \/ value row = VUndefined ->
      props_get k (toEditBuffer rows) = Some "") /\
  (JSON.parse "" = Throw SyntaxError /\ parsedOrRaw (Some "") = VStr "") /\
  (forall st nd doc fields k row,
      selectedNode st = Some nd ->
      isPrimitiveNode (text nd) = false ->
      editedFields st = toEditBuffer (text nd) ->
      JSON.parse (json st) = Normal doc ->
      lookup_path doc (nodePath nd) = Normal (VObj fields) ->
      seededRow k (text nd) = Some row ->
      value row = VNull \/ value row = VUndefined ->
      exists doc' fields',
        committed doc' st (run handleSave st) /\
        lookup_path doc' (nodePath nd) = Normal (VObj fields') /\
        props_get k fields' = Some (VStr "")) /\
  (forall st nd row seg segs doc parent,
      selectedNode st = Some nd ->
      text nd = [row] -> has_key row = false ->
      value row = VNull \/ value row = VUndefined ->
      editedFields st = toEditBuffer (text nd) ->
      path nd = Some (seg :: segs) ->
      JSON.parse (json st) = Normal doc ->
      resolveParent doc (seg :: segs) = Normal parent ->
      takesKey parent (finalKey (seg :: segs)) = true ->
      exists doc',
        committed doc' st (run handleSave st) /\
        lookup_path doc' (seg :: segs) = Normal (VStr "")).
Proof.
  assert (Hstr : forall v, v = VNull \/ v = VUndefined -> stringOf v = "")
    by (intros v [-> | ->]; reflexivity).
  split; [|split; [|split; [|split]]].
  - intros row Hkey Hnull. unfold toEditBuffer, isPrimitiveNode.
    now rewrite Hkey, (Hstr _ Hnull).
  - intros rows k row Hshape Hrow Hnull.
    rewrite (toEditBuffer_object _ Hshape), seedFields_get, Hrow. simpl.
    now rewrite (Hstr _ Hnull).
  - split; reflexivity.
  - intros st nd doc fields k row Hsel Hshape Hbuf Hparse Hlook Hrow Hnull.
    destruct (commit_writes_object_fields st nd doc fields Hsel Hshape Hparse Hlook)
      as (doc' & Hrun & L).
    exists doc', (writtenFields (editedFields st) fields).
    split; [rewrite Hrun; apply afterSuccess_committed|]. split; [exact L|].
    rewrite Hbuf, (toEditBuffer_object _ Hshape), seeded_field, Hrow.
    now rewrite (Hstr _ Hnull).
  - intros st nd row seg segs doc parent Hsel Htext Hkey Hnull Hbuf Hpath Hparse Hpar Htakes.
    assert (Hshape : isPrimitiveNode (text nd) = true)
      by (rewrite Htext; simpl; now rewrite Hkey).
    destruct (commit_replaces_scalar st nd seg segs doc parent
                Hsel Hshape Hpath Hparse Hpar (takesKey_holdsKey _ _ Htakes))
      as (doc' & Hrun & L).
    exists doc'. split; [rewrite Hrun; apply afterSuccess_committed|].
    rewrite L, Hbuf, Htext, (toEditBuffer_scalar _ Hkey).
    now rewrite (Hstr _ Hnull).
Qed.

Lemma null_row_commits_empty_string_witness :
  props_get "n" (toEditBuffer (text nullFieldNode)) = Some "" /\
  exists doc' fields',
    committed doc' nullFieldStore (run handleSave nullFieldStore) /\
    lookup_path doc' (nodePath nullFieldNode) = Normal (VObj fields') /\
    props_get "n" fields' = Some (VStr "").
Proof.
  split.
  - apply (proj1 (proj2 null_row_commits_empty_string) (text nullFieldNode) "n"
             nullFieldRow); try reflexivity.
    now left.
  - apply (proj1 (proj2 (proj2 (proj2 null_row_commits_empty_string)))
             nullFieldStore nullFieldNode (VObj [("n", VNull)]) [("n", VNull)]
             "n" nullFieldRow); try reflexivity.
    now left.
Defined.

End Claims.

(** * Further properties of the component *)

Section BufferFacts.
Import NodeModal Spec Examples Session.

(** ** Keys of a property map *)

Lemma props_keys_replace {A} k (v : A) l :
  props_keys (props_replace k v l) = props_keys l.
Proof.
  induction l as [|[k0 v0] l IH]; simpl; [reflexivity|].
  destruct (String.eqb k k0); simpl; [reflexivity | now rewrite IH].
Qed.

Lemma in_keys_insert_index {A} i k (v : A) l x :
  In x (props_keys (props_insert_index i k v l)) <-> x = k \/ In x (props_keys l).
Proof.
  induction l as [|[k0 v0] l IH]; simpl.
  - intuition.
  - destruct (array_index k0) as [j|]; [destruct (j <? i)%N|]; simpl;
      rewrite ?IH; intuition.
Qed.

Lemma in_keys_set {A} k (v : A) l x :
  In x (props_keys (props_set k v l)) <-> x = k \/ In x (props_keys l).
Proof.
  unfold props_set. destruct (props_mem k l) eqn:M.
  - rewrite props_keys_replace. split; [auto|]. intros [-> | H]; [|exact H].
    rewrite <- existsb_keys in M. apply existsb_exists in M.
    destruct M as (y & Hy & E). apply String.eqb_eq in E. now subst y.
  - destruct (array_index k).
    + apply in_keys_insert_index.
    + unfold props_keys. rewrite map_app, in_app_iff. simpl. intuition.
Qed.

Lemma props_mem_in_keys {A} k (l : list (string * A)) :
  props_mem k l = true <-> In k (props_keys l).
Proof.
  rewrite <- existsb_keys, existsb_exists. split.
  - intros (y & Hy & E). apply String.eqb_eq in E. now subst y.
  - intros H. exists k. split; [exact H | apply String.eqb_refl].
Qed.





(** ** The buffer the form is built from *)











(** ** Typing and cancelling *)

Lemma typing_keeps_selection changes st :
  selectedNode (typing changes st) = selectedNode st.
Proof.
  unfold typing. revert st. induction changes as [|kv changes IH]; intros st; simpl;
    [reflexivity|]. now rewrite IH.
Qed.

Lemma handleCancel_keeps_selection st :
  selectedNode (run handleCancel st) = selectedNode st.
Proof.
  unfold run, handleCancel, bind. simpl. now destruct (selectedNode st).
Qed.

(** X3. Cancel discards what was typed.  Whatever the user typed since
    entering edit mode, [handleCancel] leaves edit mode with the buffer
    the node on display seeds: the buffer the effect installed when the
    modal opened on that node. *)
Theorem cancel_discards_typing st nd changes :
  opened st = true ->
  selectedNode st = Some nd ->
  let cancelled := run handleCancel (typing changes (run handleEdit st)) in
  isEditMode cancelled = false /\
  editedFields cancelled = toEditBuffer (text nd) /\
  editedFields cancelled = editedFields (run syncEffect st) /\
  selectedNode cancelled = Some nd.
Proof.
  intros Ho Hs cancelled.
  assert (Hsel : selectedNode (typing changes (run handleEdit st)) = Some nd)
    by (now rewrite typing_keeps_selection).
  destruct (handleCancel_seeds _ _ Hsel) as (Hb & Hm).
  destruct (syncEffect_seeds _ _ Ho Hs) as (Hb' & _).
  repeat split; try assumption.
  - now rewrite Hb'.
  - unfold cancelled. now rewrite handleCancel_keeps_selection.
Qed.

Lemma cancel_discards_typing_witness :
  let cancelled :=
    run handleCancel
      (typing [("x", "2"); ("x", "oops")] (run handleEdit (run syncEffect openedStore))) in
  isEditMode cancelled = false /\
  editedFields cancelled = toEditBuffer (text rootNode) /\
  editedFields cancelled = editedFields (run syncEffect (run syncEffect openedStore)) /\
  selectedNode cancelled = Some rootNode.
Proof.
  exact (cancel_discards_typing (run syncEffect openedStore) rootNode
           [("x", "2"); ("x", "oops")] eq_refl eq_refl).
Defined.

(** X4. A field change overwrites one entry.  After [handleFieldChange k v]
    the entry [k] reads [v] and every other entry reads what it did;
    when [k] is an entry of the buffer, as it is for every input the
    form renders, the keys and their order are unchanged; nothing else
    in the stores changes. *)
Theorem field_change_overwrites_one_entry st k v :
  let changed := run (handleFieldChange k v) st in
  (forall k', props_get k' (editedFields changed)
              = if String.eqb k' k then Some v else props_get k' (editedFields st)) /\
  (props_mem k (editedFields st) = true ->
   props_keys (editedFields changed) = props_keys (editedFields st)) /\
  isEditMode changed = isEditMode st /\
  selectedNode changed = selectedNode st /\
  contents changed = contents st.
Proof.
  cbv zeta. unfold run, handleFieldChange. simpl. repeat split.
  - intros k'. apply props_get_set.
  - intros M. unfold props_set. rewrite M. apply props_keys_replace.
Qed.

End BufferFacts.

Section WriteFacts.
Import NodeModal Spec Examples Session MoreExamples.

(** ** The write seen from the addressed value *)

Lemma update_at_ext root segs op1 op2 :
  (forall cur, op1 cur = op2 cur) -> update_at root segs op1 = update_at root segs op2.
Proof.
  intros H. revert root. induction segs as [|seg segs IH]; intros root; simpl; [apply H|].
  destruct (get_prop root (prop_key seg)) as [next|]; simpl; [|reflexivity].
  now rewrite IH.
Qed.

Lemma update_at_app root a b op :
  update_at root (a ++ b) op = update_at root a (fun cur => update_at cur b op).
Proof.
  revert root. induction a as [|seg a IH]; intros root; simpl; [reflexivity|].
  destruct (get_prop root (prop_key seg)) as [next|]; simpl; [|reflexivity].
  now rewrite IH.
Qed.

Lemma writeNode_as_target rows f k cur :
  isPrimitiveNode rows = false ->
  writeNode rows f k cur
  = update_at cur [SegKey k] (writeTarget f).
Proof.
  intros H. unfold writeNode, writeTarget. rewrite H. simpl.
  destruct (get_prop cur k) as [target|] eqn:G; simpl; [|reflexivity].
  destruct (is_object target); simpl; [reflexivity|].
  now rewrite (put_back_same _ _ _ G).
Qed.

Lemma update_at_last_key root segs seg op :
  update_at root (segs ++ [seg]) op
  = update_at root (segs ++ [SegKey (prop_key seg)]) op.
Proof. now rewrite !update_at_app. Qed.

(** On an object-shaped node with a non-empty path, the edits are the
    walk along the whole path followed by the write into the addressed
    value. *)
Lemma applyEdits_as_update nd f doc seg segs :
  isPrimitiveNode (text nd) = false ->
  path nd = Some (seg :: segs) ->
  applyEdits (Some nd) f doc = update_at doc (seg :: segs) (writeTarget f).
Proof.
  intros Hshape Hpath. unfold applyEdits. rewrite Hpath.
  set (p := seg :: segs).
  assert (Hp : p <> []) by discriminate.
  rewrite (app_removelast_last seg Hp) at 3.
  rewrite update_at_last_key, update_at_app.
  apply update_at_ext. intros cur. now apply writeNode_as_target.
Qed.

(** ** What a commit leaves alone *)

Lemma array_index_inj k k' i :
  array_index k = Some i -> array_index k' = Some i -> k = k'.
Proof.
  unfold array_index. intros H H'.
  destruct (NilZero.uint_of_string k) as [d|]; [|discriminate].
  destruct (NilZero.uint_of_string k') as [d'|]; [|discriminate].
  cbv zeta in H, H'.
  destruct (String.eqb (string_of_Z (Z.of_N (N.of_uint d))) k
            && (N.of_uint d <? 4294967295)%N)%bool eqn:E; [|discriminate].
  destruct (String.eqb (string_of_Z (Z.of_N (N.of_uint d'))) k'
            && (N.of_uint d' <? 4294967295)%N)%bool eqn:E'; [|discriminate].
  injection H as H. injection H' as H'.
  apply andb_prop in E, E'. destruct E as (E & _), E' as (E' & _).
  apply String.eqb_eq in E, E'. congruence.
Qed.

Lemma nth_array_set_other i j v l :
  i <> j -> nth j (array_set i v l) VUndefined = nth j l VUndefined.
Proof.
  revert j l. induction i as [|i IH]; intros [|j] [|x l] H; simpl; try congruence;
    try reflexivity.
  - now destruct j.
  - rewrite IH by congruence. now destruct j.
  - apply IH. congruence.
Qed.

Lemma length_array_set_in_range i v l :
  (i < List.length l)%nat -> List.length (array_set i v l) = List.length l.
Proof.
  revert l. induction i as [|i IH]; intros [|x l]; simpl; intros H; try lia.
  rewrite IH; lia.
Qed.

Lemma props_get_replace_other {A} k k0 (v : A) l :
  k <> k0 -> props_get k (props_replace k0 v l) = props_get k l.
Proof.
  intros H. destruct (props_mem k0 l) eqn:M.
  - rewrite (props_get_replace _ _ _ _ M).
    destruct (String.eqb k k0) eqn:E; [|reflexivity].
    apply String.eqb_eq in E. contradiction.
  - apply props_mem_false_get in M. now rewrite props_replace_absent.
Qed.

(** Putting a child back under [k0] changes no other property of the
    parent. *)
Lemma get_put_back_other o k0 c k :
  k <> k0 -> get_prop (put_back o k0 c) k = get_prop o k.
Proof.
  intros H. destruct o as [| |b|n|s|l|ps]; simpl; try reflexivity.
  - destruct (array_index k0) as [i|] eqn:I0; [|reflexivity].
    destruct (N.to_nat i <? List.length l)%nat eqn:R; [|reflexivity].
    apply Nat.ltb_lt in R. simpl.
    destruct (array_index k) as [j|] eqn:I.
    + rewrite nth_array_set_other; [reflexivity|].
      intros E. apply N2Nat.inj in E. subst j.
      apply H. eapply array_index_inj; eauto.
    + now rewrite length_array_set_in_range.
  - now rewrite props_get_replace_other.
Qed.

Lemma update_at_non_object cur seg segs op r :
  is_object cur = false -> update_at cur (seg :: segs) op = Normal r -> r = cur.
Proof.
  intros H. simpl.
  destruct (get_prop cur (prop_key seg)) as [next|]; simpl; [|discriminate].
  destruct (update_at next segs op) as [next'|]; simpl; [|discriminate].
  intros [= <-]. now destruct cur.
Qed.

(** A walk-and-write along [common ++ s0 :: tail0] changes nothing that
    is read along a path that leaves it under another key. *)
Lemma update_at_frame common s0 tail0 s tail op root root' :
  update_at root (common ++ s0 :: tail0) op = Normal root' ->
  prop_key s <> prop_key s0 ->
  lookup_path root' (common ++ s :: tail) = lookup_path root (common ++ s :: tail).
Proof.
  intros U Hk. revert root root' U.
  induction common as [|c common IH]; intros root root' U; simpl in U |- *.
  - destruct (get_prop root (prop_key s0)) as [next|]; simpl in U; [|discriminate].
    destruct (update_at next tail0 op) as [next'|]; simpl in U; [|discriminate].
    injection U as <-. now rewrite get_put_back_other.
  - destruct (get_prop root (prop_key c)) as [next|] eqn:G; simpl in U; [|discriminate].
    destruct (update_at next (common ++ s0 :: tail0) op) as [next'|] eqn:U';
      simpl in U; [|discriminate].
    injection U as <-.
    destruct (is_object next) eqn:O.
    + rewrite (get_put_back _ _ _ next' G O). simpl. now apply IH.
    + assert (next' = next) as ->.
      { destruct common; simpl in U'; eapply update_at_non_object; eauto. }
      now rewrite (put_back_same _ _ _ G), G.
Qed.

(** X5. What a commit writes into an object.  On an object-shaped node
    whose address holds an object the commit always succeeds; afterwards
    the address holds an object in which every buffered key reads the
    parsed value of its text, or the text itself when it does not parse,
    and every key that is not buffered reads what it did, the nested
    arrays and objects among them; no field is removed. *)
Theorem object_commit_fields st nd doc fields :
  selectedNode st = Some nd ->
  isPrimitiveNode (text nd) = false ->
  JSON.parse (json st) = Normal doc ->
  lookup_path doc (nodePath nd) = Normal (VObj fields) ->
  exists doc' fields',
    run handleSave st = afterSuccess doc' st /\
    lookup_path doc' (nodePath nd) = Normal (VObj fields') /\
    (forall k, props_get k fields'
               = if props_mem k (editedFields st)
                 then Some (parsedOrRaw (props_get k (editedFields st)))
                 else props_get k fields) /\
    (forall k, props_mem k fields = true -> props_mem k fields' = true).
Proof.
  intros Hsel Hshape Hparse Hlook.
  destruct (commit_writes_object_fields st nd doc fields Hsel Hshape Hparse Hlook)
    as (doc' & Hrun & L).
  exists doc', (writtenFields (editedFields st) fields).
  repeat split; try assumption.
  - intros k. apply writtenFields_get.
  - intros k. unfold props_mem at 1 2. rewrite writtenFields_get.
    destruct (props_mem k (editedFields st)); [reflexivity|].
    now destruct (props_get k fields).
Qed.

Lemma object_commit_fields_witness :
  exists doc' fields',
    run handleSave userStore = afterSuccess doc' userStore /\
    lookup_path doc' (nodePath userNode) = Normal (VObj fields') /\
    (forall k, props_get k fields'
               = if props_mem k (editedFields userStore)
                 then Some (parsedOrRaw (props_get k (editedFields userStore)))
                 else props_get k [("name", VStr "Ann"); ("tags", VArr [VNum 1; VNum 2])]) /\
    (forall k, props_mem k [("name", VStr "Ann"); ("tags", VArr [VNum 1; VNum 2])] = true ->
               props_mem k fields' = true).
Proof.
  exact (object_commit_fields userStore userNode nestedDoc
           [("name", VStr "Ann"); ("tags", VArr [VNum 1; VNum 2])]
           eq_refl eq_refl eq_refl eq_refl).
Defined.

(** X6. What a commit leaves alone.  After a successful commit on an
    object-shaped node with a non-empty path, every path that leaves the
    node's path under another key reads in the new document what it read
    in the old one: siblings of the node, and everything beside its
    ancestors, are untouched. *)
Theorem object_commit_frame st nd seg segs doc doc' q :
  selectedNode st = Some nd ->
  path nd = Some (seg :: segs) ->
  isPrimitiveNode (text nd) = false ->
  JSON.parse (json st) = Normal doc ->
  applyEdits (Some nd) (editedFields st) doc = Normal doc' ->
  branchesOff q (seg :: segs) ->
  run handleSave st = afterSuccess doc' st /\
  lookup_path doc' q = lookup_path doc q.
Proof.
  intros Hsel Hpath Hshape Hparse Hedit (common & s & tail & s0 & tail0 & -> & Hp & Hk).
  split.
  - rewrite <- Hsel in Hedit. exact (handleSave_committed _ _ _ Hparse Hedit).
  - rewrite (applyEdits_as_update _ _ _ _ _ Hshape Hpath), Hp in Hedit.
    exact (update_at_frame _ _ _ _ _ _ _ _ Hedit Hk).
Qed.

Lemma object_commit_frame_witness :
  run handleSave userStore
  = afterSuccess
      (VObj [("user", VObj [("name", VStr "Bob"); ("tags", VArr [VNum 1; VNum 2])]);
             ("n", VNum 1)]) userStore /\
  lookup_path
    (VObj [("user", VObj [("name", VStr "Bob"); ("tags", VArr [VNum 1; VNum 2])]);
           ("n", VNum 1)]) [SegKey "n"]
  = lookup_path nestedDoc [SegKey "n"].
Proof.
  apply (object_commit_frame userStore userNode (SegKey "user") [] nestedDoc);
    try reflexivity.
  exists [], (SegKey "n"), [], (SegKey "user"), [].
  repeat split. discriminate.
Defined.

(** ** The node shown at once *)

Lemma optimisticNode_identity nd f :
  id (optimisticNode nd f) = id nd /\
  path (optimisticNode nd f) = path nd /\
  map key (text (optimisticNode nd f)) = map key (text nd) /\
  map type (text (optimisticNode nd f)) = map type (text nd).
Proof.
  unfold optimisticNode. destruct (isPrimitiveNode (text nd)).
  - destruct (text nd) as [|row rest] eqn:E; simpl; rewrite ?E; simpl; auto.
  - simpl. repeat split; rewrite map_map; apply map_ext; intros row;
      now destruct (has_key row && props_mem (key_of row) f)%bool.
Qed.

(** X7. The node shown at once agrees with what was written.  After a
    commit on an object-shaped node whose address holds an object, every
    row of the optimistic node whose key is buffered shows the value the
    document now holds under that key; the optimistic node keeps the
    identifier, the path, and the keys and types of the rows. *)
Theorem optimistic_matches_document st nd doc fields :
  selectedNode st = Some nd ->
  isPrimitiveNode (text nd) = false ->
  JSON.parse (json st) = Normal doc ->
  lookup_path doc (nodePath nd) = Normal (VObj fields) ->
  exists doc' fields' shown,
    run handleSave st = afterSuccess doc' st /\
    selectedNode (run handleSave st) = Some shown /\
    lookup_path doc' (nodePath nd) = Normal (VObj fields') /\
    id shown = id nd /\ path shown = path nd /\
    map key (text shown) = map key (text nd) /\
    map type (text shown) = map type (text nd) /\
    (forall row, In row (text shown) -> has_key row = true ->
                 props_mem (key_of row) (editedFields st) = true ->
                 props_get (key_of row) fields' = Some (value row)).
Proof.
  intros Hsel Hshape Hparse Hlook.
  destruct (commit_writes_object_fields st nd doc fields Hsel Hshape Hparse Hlook)
    as (doc' & Hrun & L).
  destruct (optimisticNode_identity nd (editedFields st)) as (Hid & Hpath & Hkeys & Htypes).
  exists doc', (writtenFields (editedFields st) fields),
    (optimisticNode nd (editedFields st)).
  split; [exact Hrun|]. split; [rewrite Hrun; unfold afterSuccess; now rewrite Hsel|].
  repeat split; try assumption.
  intros row Hin Hk Hm. rewrite writtenFields_get, Hm.
  unfold optimisticNode in Hin. rewrite Hshape in Hin. simpl in Hin.
  apply in_map_iff in Hin. destruct Hin as (row0 & Hrow & _).
  destruct (has_key row0 && props_mem (key_of row0) (editedFields st))%bool eqn:C.
  - subst row. reflexivity.
  - subst row0. rewrite Hk, Hm in C. discriminate.
Qed.

Lemma optimistic_matches_document_witness :
  exists doc' fields' shown,
    run handleSave userStore = afterSuccess doc' userStore /\
    selectedNode (run handleSave userStore) = Some shown /\
    lookup_path doc' (nodePath userNode) = Normal (VObj fields') /\
    id shown = id userNode /\ path shown = path userNode /\
    map key (text shown) = map key (text userNode) /\
    map type (text shown) = map type (text userNode) /\
    (forall row, In row (text shown) -> has_key row = true ->
                 props_mem (key_of row) (editedFields userStore) = true ->
                 props_get (key_of row) fields' = Some (value row)).
Proof.
  exact (optimistic_matches_document userStore userNode nestedDoc
           [("name", VStr "Ann"); ("tags", VArr [VNum 1; VNum 2])]
           eq_refl eq_refl eq_refl eq_refl).
Defined.

End WriteFacts.

Section ReconcileFacts.
Import NodeModal Spec Examples Session MoreExamples.

(** ** Commit, rebuild, reconciliation *)

(** X8. The selection keeps its identity.  From a successful commit on
    [nd] to the firing of its reconciliation, whatever collection the
    rebuild produced, the selected node carries the identifier of [nd]:
    it is the optimistic node, or the rebuilt node of that identifier. *)
Theorem selection_identity_stable st nd newNodes :
  selectedNode st = Some nd ->
  commitSucceeds st = true ->
  timers st = [] ->
  exists shown shown',
    selectedNode (run handleSave st) = Some shown /\ id shown = id nd /\
    selectedNode (fireTimer (rebuild newNodes (run handleSave st))) = Some shown' /\
    id shown' = id nd /\
    timers (fireTimer (rebuild newNodes (run handleSave st))) = [].
Proof.
  intros Hsel Hok Htimers.
  destruct (commitSucceeds_true _ Hok) as (doc & doc' & P & A).
  rewrite (handleSave_committed _ _ _ P A).
  destruct (optimisticNode_identity nd (editedFields st)) as (Hid & _).
  unfold afterSuccess, rebuild, fireTimer. simpl. rewrite Htimers, Hsel. simpl.
  unfold run, reconcile, bind, getNodes. simpl.
  destruct (find (fun n => String.eqb (id n) (id nd)) newNodes) as [n|] eqn:F; simpl.
  - apply find_some in F. destruct F as (_ & E). apply String.eqb_eq in E.
    eexists _, _. repeat split; eauto.
  - eexists _, _. repeat split; eauto.
Qed.

Lemma selection_identity_stable_witness :
  exists shown shown',
    selectedNode (run handleSave rootStore) = Some shown /\ id shown = id rootNode /\
    selectedNode (fireTimer (rebuild [otherNode; rebuiltRoot] (run handleSave rootStore)))
    = Some shown' /\
    id shown' = id rootNode /\
    timers (fireTimer (rebuild [otherNode; rebuiltRoot] (run handleSave rootStore))) = [].
Proof.
  exact (selection_identity_stable rootStore rootNode [otherNode; rebuiltRoot]
           eq_refl eq_refl eq_refl).
Defined.

(** X9. A timer that fires before the rebuild undoes the display.  When
    the reconciliation of a commit on an object-shaped node fires while
    the collection still holds the node as it was before the edit, that
    node is installed again: the display goes back to the values before
    the edit while the stored text keeps the edit. *)
Theorem early_timer_reinstalls_old_node st nd :
  selectedNode st = Some nd ->
  isPrimitiveNode (text nd) = false ->
  find (fun n => String.eqb (id n) (id nd)) (nodes st) = Some nd ->
  commitSucceeds st = true ->
  timers st = [] ->
  selectedNode (run handleSave st) = Some (optimisticNode nd (editedFields st)) /\
  selectedNode (fireTimer (run handleSave st)) = Some nd /\
  contents (fireTimer (run handleSave st)) = contents (run handleSave st).
Proof.
  intros Hsel _ Hfind Hok Htimers.
  destruct (commitSucceeds_true _ Hok) as (doc & doc' & P & A).
  rewrite (handleSave_committed _ _ _ P A).
  unfold afterSuccess, fireTimer. simpl. rewrite Htimers, Hsel. simpl.
  unfold run, reconcile, bind, getNodes. simpl. rewrite Hfind. simpl. auto.
Qed.

Lemma early_timer_reinstalls_old_node_witness :
  selectedNode (run handleSave rootStore)
  = Some (optimisticNode rootNode (editedFields rootStore)) /\
  selectedNode (fireTimer (run handleSave rootStore)) = Some rootNode /\
  contents (fireTimer (run handleSave rootStore)) = contents (run handleSave rootStore).
Proof.
  exact (early_timer_reinstalls_old_node rootStore rootNode
           eq_refl eq_refl eq_refl eq_refl eq_refl).
Defined.

(** X10. A reconciliation that lands ends the edit session.  When the
    timer installs the rebuilt node [n] and the effect on the node on
    display runs (it runs whenever the node installed is not the very
    object already on display), the component is out of edit mode and the buffer is the
    one [n] seeds, whatever mode it was in and whatever the buffer held:
    text typed after the commit and before the timer is gone. *)
Theorem reconciliation_resets_edit_session st t rest nd n :
  opened st = true ->
  timers st = t :: rest ->
  captured t = Some nd ->
  find (fun m => String.eqb (id m) (id nd)) (nodes st) = Some n ->
  let landed := run syncEffect (fireTimer st) in
  selectedNode landed = Some n /\
  isEditMode landed = false /\
  editedFields landed = toEditBuffer (text n).
Proof.
  intros Ho Ht Hc Hfind landed.
  assert (Hsel : selectedNode (fireTimer st) = Some n).
  { unfold fireTimer. rewrite Ht, Hc. unfold run, reconcile, bind, getNodes. simpl.
    now rewrite Hfind. }
  assert (Hop : opened (fireTimer st) = true).
  { unfold fireTimer. rewrite Ht, Hc. unfold run, reconcile, bind, getNodes. simpl.
    now rewrite Hfind. }
  destruct (syncEffect_seeds _ _ Hop Hsel) as (Hb & Hm & Hs). auto.
Qed.

Lemma reconciliation_resets_edit_session_witness :
  let typedAfter :=
    run (handleFieldChange "x" "3")
      (run handleEdit (rebuild [rebuiltRoot] (run handleSave rootStore))) in
  let landed := run syncEffect (fireTimer typedAfter) in
  selectedNode landed = Some rebuiltRoot /\
  isEditMode landed = false /\
  editedFields landed = toEditBuffer (text rebuiltRoot).
Proof.
  exact (reconciliation_resets_edit_session
           (run (handleFieldChange "x" "3")
              (run handleEdit (rebuild [rebuiltRoot] (run handleSave rootStore))))
           (mkTimer 500 (Some rootNode)) [] rootNode rebuiltRoot
           eq_refl eq_refl eq_refl eq_refl).
Defined.

(** X11. What [handleSave] never does.  Whatever the document, the node
    and the buffer, the handler ends normally (every exception is caught
    inside it), and whatever the outcome, a commit attempt leaves the
    [opened] flag, the JSON store and the edit buffer as they were, shows
    exactly one toast, and schedules at most one timer, with delay 500
    and the node that was on display.  Unless the node on display is a
    single value, whose row object the commit writes into, the node
    collection is left as it was too. *)
Theorem handleSave_leaves_collaborators st :
  let saved := run handleSave st in
  fst (handleSave st) = Normal tt /\
  opened saved = opened st /\
  json saved = json st /\
  editedFields saved = editedFields st /\
  (exists t, toasts saved = (toasts st ++ [t])%list) /\
  (timers saved = timers st \/
   timers saved = (timers st ++ [mkTimer 500 (selectedNode st)])%list) /\
  ((forall nd, selectedNode st = Some nd -> isPrimitiveNode (text nd) = false) ->
   nodes saved = nodes st).
Proof.
  cbv zeta. split.
  - unfold handleSave, try_catch.
    destruct (saveBody (selectedNode st) (editedFields st) st) as [[[]|e] st']; reflexivity.
  - destruct (commitSucceeds st) eqn:C.
    + destruct (commitSucceeds_true _ C) as (doc & doc' & P & A).
      rewrite (handleSave_committed _ _ _ P A). unfold afterSuccess. simpl.
      repeat split; eauto.
    + destruct (commitSucceeds_false _ C) as (e & ->). unfold afterFailure. simpl.
      repeat split; eauto.
Qed.

End ReconcileFacts.

Section EdgeFacts.
Import NodeModal Spec Examples Session MoreExamples.

(** ** Nothing to edit *)

Lemma seedFields_none rows :
  (forall row, In row rows -> is_kept row = false) -> seedFields rows = [].
Proof.
  unfold seedFields. generalize (@nil (string * string)).
  induction rows as [|row rows IH]; intros acc H; simpl; [reflexivity|].
  assert (K : is_kept row = false) by (apply H; now left).
  rewrite is_kept_code in K. rewrite K. apply IH. intros r Hr. apply H. now right.
Qed.

Lemma normalizeObject_none rows :
  (forall row, In row rows -> is_kept row = false) -> normalizeObject rows = [].
Proof.
  intros H. rewrite normalizeObject_kept.
  - revert H. generalize (@nil (string * val)).
    induction rows as [|row rows IH]; intros acc H; simpl; [reflexivity|].
    rewrite (H row (or_introl eq_refl)). apply IH. intros r Hr. apply H. now right.
  - intros row Hin Hk. rewrite (H row Hin) in Hk. discriminate.
Qed.

Lemma optimisticNode_empty nd :
  isPrimitiveNode (text nd) = false -> optimisticNode nd [] = nd.
Proof.
  intros H. unfold optimisticNode. rewrite H. destruct nd as [i rows p]. simpl.
  f_equal. rewrite <- (map_id rows) at 2. apply map_ext. intros row.
  now rewrite andb_false_r.
Qed.

(** X12. A node with nothing to edit.  When no row of an object-shaped node
    has a key and a flat type (every field is a nested array or object),
    the view shows [{}] and the form has no input; saving then writes
    nothing: if the address can be read the commit reports success and
    the text stored is the document as it was parsed, serialised again.
    The node collection is left as it was, and so is the node on
    display when no row is keyed by a name of [Object.prototype] (which
    the empty buffer would inherit). *)
Theorem nothing_to_edit st nd doc target :
  selectedNode st = Some nd ->
  isPrimitiveNode (text nd) = false ->
  (forall row, In row (text nd) -> is_kept row = false) ->
  (forall row, In row (text nd) -> has_key row = true ->
               inherited_name (key_of row) = false) ->
  editedFields st = toEditBuffer (text nd) ->
  JSON.parse (json st) = Normal doc ->
  lookup_path doc (nodePath nd) = Normal target ->
  normalizeNodeData (text nd) = "{}" /\
  editedFields st = [] /\
  applyEdits (Some nd) (editedFields st) doc = Normal doc /\
  committed doc st (run handleSave st) /\
  nodes (run handleSave st) = nodes st /\
  selectedNode (run handleSave st) = Some nd.
Proof.
  intros Hsel Hshape Hnone _ Hbuf Hparse Hlook.
  assert (Hempty : editedFields st = []).
  { now rewrite Hbuf, (toEditBuffer_object _ Hshape), seedFields_none. }
  assert (Hedit : applyEdits (Some nd) (editedFields st) doc = Normal doc).
  { rewrite Hempty. unfold nodePath in Hlook.
    destruct (path nd) as [[|seg segs]|] eqn:Hpath.
    - unfold applyEdits. rewrite Hpath. reflexivity.
    - rewrite (applyEdits_as_update _ _ _ _ _ Hshape Hpath).
      eapply update_at_unchanged; [exact Hlook|].
      unfold writeTarget. now destruct (is_object target).
    - unfold applyEdits. rewrite Hpath. reflexivity. }
  assert (Hrun : run handleSave st = afterSuccess doc st).
  { rewrite <- Hsel in Hedit. exact (handleSave_committed _ _ _ Hparse Hedit). }
  split; [|split; [exact Hempty|split; [exact Hedit|]]].
  - destruct (text nd) as [|row rows] eqn:E; [reflexivity|].
    unfold normalizeNodeData. rewrite Hshape, normalizeObject_none; [reflexivity|].
    exact Hnone.
  - rewrite Hrun. split; [apply afterSuccess_committed|]. split; [reflexivity|].
    unfold afterSuccess. simpl. rewrite Hsel, Hempty.
    now rewrite optimisticNode_empty.
Qed.

Lemma nothing_to_edit_witness :
  normalizeNodeData (text tagsOnlyNode) = "{}" /\
  editedFields tagsOnlyStore = [] /\
  applyEdits (Some tagsOnlyNode) (editedFields tagsOnlyStore) nestedDoc = Normal nestedDoc /\
  committed nestedDoc tagsOnlyStore (run handleSave tagsOnlyStore) /\
  nodes (run handleSave tagsOnlyStore) = nodes tagsOnlyStore /\
  selectedNode (run handleSave tagsOnlyStore) = Some tagsOnlyNode.
Proof.
  apply (nothing_to_edit tagsOnlyStore tagsOnlyNode nestedDoc
           (VObj [("name", VStr "Ann"); ("tags", VArr [VNum 1; VNum 2])]));
    try reflexivity.
  - intros row [<- | []]. reflexivity.
  - intros row [<- | []] _. reflexivity.
Defined.

(** ** A single value inside an array *)

Lemma array_set_past_end i v l :
  (List.length l <= i)%nat ->
  array_set i v l = (l ++ repeat VUndefined (i - List.length l) ++ [v])%list.
Proof.
  revert l. induction i as [|i IH]; intros [|x l]; simpl; intros H; try lia.
  - reflexivity.
  - f_equal. rewrite (IH []) by (simpl; lia). simpl. now rewrite Nat.sub_0_r.
  - f_equal. apply IH. lia.
Qed.

(** X13. Replacing an element of an array.  A commit on a single-value
    node whose parent is an array and whose final key is an index always
    reports success.  With the index in range the array keeps its length
    and every other element, and the element at the index becomes the
    parsed value of the text, or the text itself when it does not parse.
    With the index past the end (a path that went stale) the array
    grows: it is padded with holes, which serialise as [null], up to the
    index. *)
Theorem array_element_commit st nd seg segs doc l i :
  selectedNode st = Some nd ->
  isPrimitiveNode (text nd) = true ->
  path nd = Some (seg :: segs) ->
  JSON.parse (json st) = Normal doc ->
  resolveParent doc (seg :: segs) = Normal (VArr l) ->
  array_index (finalKey (seg :: segs)) = Some i ->
  let v := parsedOrRaw (props_get "value" (editedFields st)) in
  let l' := array_set (N.to_nat i) v l in
  exists doc',
    committed doc' st (run handleSave st) /\
    resolveParent doc' (seg :: segs) = Normal (VArr l') /\
    nth (N.to_nat i) l' VUndefined = v /\
    (forall j, j <> N.to_nat i -> nth j l' VUndefined = nth j l VUndefined) /\
    ((N.to_nat i < List.length l)%nat -> List.length l' = List.length l) /\
    ((List.length l <= N.to_nat i)%nat ->
     l' = (l ++ repeat VUndefined (N.to_nat i - List.length l) ++ [v])%list).
Proof.
  intros Hsel Hshape Hpath Hparse Hparent Hi v l'.
  unfold resolveParent, finalKey in *.
  assert (Hop : writeNode (text nd) (editedFields st)
                  (prop_key (last (seg :: segs) seg)) (VArr l) = Normal (VArr l')).
  { unfold writeNode. rewrite Hshape. now rewrite (assignParsed_arr _ _ _ _ Hi). }
  destruct (update_at_lookup _ _ _ _ _ Hparent eq_refl Hop) as (doc' & U & L).
  exists doc'. split.
  - assert (A : applyEdits (selectedNode st) (editedFields st) doc = Normal doc').
    { rewrite Hsel. unfold applyEdits. rewrite Hpath. exact U. }
    rewrite (handleSave_committed _ _ _ Hparse A). apply afterSuccess_committed.
  - split; [exact L|]. split; [apply nth_array_set|]. split; [|split].
    + intros j Hj. apply nth_array_set_other. congruence.
    + apply length_array_set_in_range.
    + apply array_set_past_end.
Qed.

Lemma array_element_commit_witness :
  exists doc',
    committed doc' pastEndStore (run handleSave pastEndStore) /\
    resolveParent doc' [SegKey "a"; SegIndex 5]
    = Normal (VArr (array_set 5 (VNum 9) [VNum 1; VNum 2; VNum 3])) /\
    nth 5 (array_set 5 (VNum 9) [VNum 1; VNum 2; VNum 3]) VUndefined = VNum 9 /\
    (forall j, j <> 5%nat ->
               nth j (array_set 5 (VNum 9) [VNum 1; VNum 2; VNum 3]) VUndefined
               = nth j [VNum 1; VNum 2; VNum 3] VUndefined) /\
    ((5 < 3)%nat ->
     List.length (array_set 5 (VNum 9) [VNum 1; VNum 2; VNum 3]) = 3%nat) /\
    ((3 <= 5)%nat ->
     array_set 5 (VNum 9) [VNum 1; VNum 2; VNum 3]
     = ([VNum 1; VNum 2; VNum 3] ++ repeat VUndefined (5 - 3) ++ [VNum 9])%list).
Proof.
  exact (array_element_commit pastEndStore pastEndNode (SegKey "a") [SegIndex 5]
           (VObj [("a", VArr [VNum 1; VNum 2; VNum 3])]) [VNum 1; VNum 2; VNum 3] 5%N
           eq_refl eq_refl eq_refl eq_refl eq_refl eq_refl).
Defined.

(** ** Rendered paths are not unique *)

(** X14. [jsonPathToString] does not escape.  A key is put between double
    quotes as it is, so a key that contains the run quote, bracket,
    bracket, quote renders exactly like two segments: for all [a] and
    [b], the one-segment path with that key and the two-segment path
    [a], [b] have the same rendering. *)
Theorem path_rendering_collides a b :
  jsonPathToString (Some [SegKey (a ++ segmentGap ++ b)])
  = jsonPathToString (Some [SegKey a; SegKey b]).
Proof.
  unfold jsonPathToString, segmentGap. simpl.
  rewrite !append_assoc. simpl. rewrite !append_assoc. reflexivity.
Qed.

End EdgeFacts.

Section QuotedText.
Import NodeModal Spec Examples Session MoreExamples.

(** ** Typing a string literal *)

Lemma list_ascii_of_string_app s1 s2 :
  list_ascii_of_string (s1 ++ s2)
  = (list_ascii_of_string s1 ++ list_ascii_of_string s2)%list.
Proof. induction s1 as [|c s1 IH]; simpl; [reflexivity | now rewrite IH]. Qed.

(** One quoted code unit is read back as that code unit. *)
Lemma lex_string_quote_char c tail s r :
  JSON.lex_string tail = Some (s, r) ->
  JSON.lex_string (list_ascii_of_string (JSON.quote_char c) ++ tail)
  = Some (String c s, r).
Proof.
  intros H.
  destruct c as [[|] [|] [|] [|] [|] [|] [|] [|]];
    cbn [JSON.quote_char N_of_ascii N_of_digits list_ascii_of_string app];
    simpl; rewrite H; reflexivity.
Qed.

Lemma lex_string_quote_body s rest :
  JSON.lex_string (list_ascii_of_string (JSON.quote_body s) ++ JSON.dquote :: rest)
  = Some (s, rest).
Proof.
  induction s as [|c s IH]; [reflexivity|].
  cbn [JSON.quote_body]. rewrite list_ascii_of_string_app, <- app_assoc.
  now apply lex_string_quote_char.
Qed.

(** [JSON.parse(JSON.stringify(s))] is [s], for every string. *)
Lemma parse_quote s : JSON.parse (JSON.quote s) = Normal (VStr s).
Proof.
  unfold JSON.parse, JSON.quote.
  cbn [list_ascii_of_string]. rewrite list_ascii_of_string_app.
  cbn [list_ascii_of_string].
  set (body := list_ascii_of_string (JSON.quote_body s)).
  replace (2 * List.length (JSON.dquote :: body ++ [JSON.dquote]) + 2)%nat
    with (S (2 * List.length (JSON.dquote :: body ++ [JSON.dquote]) + 1))%nat by lia.
  cbn [JSON.parse_value JSON.skip_ws]. 
  change (JSON.is_ws JSON.dquote) with false. cbv iota.
  change (Ascii.eqb JSON.dquote "{") with false.
  change (Ascii.eqb JSON.dquote "[") with false.
  change (Ascii.eqb JSON.dquote JSON.dquote) with true. cbv iota.
  unfold body. rewrite lex_string_quote_body. reflexivity.
Qed.

Lemma parsedOrRaw_stringify v :
  is_scalar v = true -> parsedOrRaw (Some (JSON.stringify v)) = v.
Proof.
  destruct v as [| |[|]|n|s|l|ps]; try discriminate; intros _; try reflexivity.
  - unfold parsedOrRaw, JSON.stringify. cbn [JSON.serialize].
    now rewrite parse_string_of_Z.
  - unfold parsedOrRaw, JSON.stringify. cbn [JSON.serialize].
    now rewrite parse_quote.
Qed.

(** X15. Typing a literal stores the value it denotes.  For every string,
    integer, boolean or [null] [v]: when the text of a buffered key is
    [JSON.stringify(v)] (a string between double quotes, with its
    escapes), a commit on an object-shaped node whose address holds an
    object stores [v] itself under that key.  In particular the string
    ["123"] is stored as a string when it is typed with its quotes. *)
Theorem typed_literal_is_stored st nd doc fields k v :
  selectedNode st = Some nd ->
  isPrimitiveNode (text nd) = false ->
  JSON.parse (json st) = Normal doc ->
  lookup_path doc (nodePath nd) = Normal (VObj fields) ->
  is_scalar v = true ->
  props_get k (editedFields st) = Some (JSON.stringify v) ->
  exists doc' fields',
    run handleSave st = afterSuccess doc' st /\
    lookup_path doc' (nodePath nd) = Normal (VObj fields') /\
    props_get k fields' = Some v.
Proof.
  intros Hsel Hshape Hparse Hlook Hv Hk.
  destruct (commit_writes_object_fields st nd doc fields Hsel Hshape Hparse Hlook)
    as (doc' & Hrun & L).
  exists doc', (writtenFields (editedFields st) fields).
  split; [exact Hrun|]. split; [exact L|].
  rewrite writtenFields_get. unfold props_mem. rewrite Hk.
  now rewrite (parsedOrRaw_stringify _ Hv).
Qed.

Lemma typed_literal_is_stored_witness :
  exists doc' fields',
    run handleSave quotedZipStore = afterSuccess doc' quotedZipStore /\
    lookup_path doc' (nodePath zipNode) = Normal (VObj fields') /\
    props_get "zip" fields' = Some (VStr "123").
Proof.
  exact (typed_literal_is_stored quotedZipStore zipNode
           (VObj [("zip", VStr "123")]) [("zip", VStr "123")] "zip" (VStr "123")
           eq_refl eq_refl eq_refl eq_refl eq_refl eq_refl).
Defined.

End QuotedText.

Section MoreCommitFacts.
Import NodeModal Spec Examples Session MoreExamples.

(** ** Saving what is already there *)

Lemma fold_set_same (g : string -> val) keys (fields : list (string * val)) :
  (forall k, In k keys -> props_get k fields = Some (g k)) ->
  fold_left (fun acc k => props_set k (g k) acc) keys fields = fields.
Proof.
  induction keys as [|k keys IH]; intros H; simpl; [reflexivity|].
  assert (Hk : props_set k (g k) fields = fields).
  { unfold props_set, props_mem. rewrite (H k (or_introl eq_refl)).
    apply props_replace_same, H. now left. }
  rewrite Hk. apply IH. intros k' Hk'. apply H. now right.
Qed.

(** X16. Saving what is already there changes no value.  On an object-shaped
    node whose address holds an object, when every buffered key already
    holds in that object the value its text denotes, the commit succeeds
    and the document it serialises is the document it parsed: only the
    formatting of the stored text can change. *)
Theorem unchanged_values_commit st nd doc fields :
  selectedNode st = Some nd ->
  isPrimitiveNode (text nd) = false ->
  JSON.parse (json st) = Normal doc ->
  lookup_path doc (nodePath nd) = Normal (VObj fields) ->
  (forall k, props_mem k (editedFields st) = true ->
             props_get k fields = Some (parsedOrRaw (props_get k (editedFields st)))) ->
  applyEdits (Some nd) (editedFields st) doc = Normal doc /\
  run handleSave st = afterSuccess doc st /\
  contents (run handleSave st) = JSON.stringify doc.
Proof.
  intros Hsel Hshape Hparse Hlook Hsame.
  assert (Hw : assignFields (editedFields st) (VObj fields) = Normal (VObj fields)).
  { rewrite assignFields_obj. unfold writtenFields.
    rewrite (fold_set_same (fun k => parsedOrRaw (props_get k (editedFields st)))).
    - reflexivity.
    - intros k Hk. apply Hsame. now apply props_mem_in_keys. }
  assert (Hedit : applyEdits (Some nd) (editedFields st) doc = Normal doc).
  { unfold nodePath in Hlook. destruct (path nd) as [[|seg segs]|] eqn:Hpath.
    - injection Hlook as ->. unfold applyEdits. now rewrite Hpath.
    - rewrite (applyEdits_as_update _ _ _ _ _ Hshape Hpath).
      eapply update_at_unchanged; [exact Hlook|]. unfold writeTarget. exact Hw.
    - injection Hlook as ->. unfold applyEdits. now rewrite Hpath. }
  split; [exact Hedit|].
  assert (Hrun : run handleSave st = afterSuccess doc st).
  { rewrite <- Hsel in Hedit. exact (handleSave_committed _ _ _ Hparse Hedit). }
  split; [exact Hrun | now rewrite Hrun].
Qed.

Lemma unchanged_values_commit_witness :
  applyEdits (Some flagsNode) (editedFields flagsStore)
    (VObj [("n", VNum 7); ("ok", VBool true)])
  = Normal (VObj [("n", VNum 7); ("ok", VBool true)]) /\
  run handleSave flagsStore
  = afterSuccess (VObj [("n", VNum 7); ("ok", VBool true)]) flagsStore /\
  contents (run handleSave flagsStore)
  = JSON.stringify (VObj [("n", VNum 7); ("ok", VBool true)]).
Proof.
  apply (unchanged_values_commit flagsStore flagsNode
           (VObj [("n", VNum 7); ("ok", VBool true)])
           [("n", VNum 7); ("ok", VBool true)]); try reflexivity.
  intros k M. apply props_mem_in_keys in M.
  change (In k ["n"; "ok"]) in M.
  destruct M as [<- | [<- | []]]; reflexivity.
Defined.

(** ** A single value inside an object *)

(** X17. Replacing a field that is a single value.  A commit on a
    single-value node whose parent is an object that takes the final key
    of the path (the key is an own property of the parent, or is not
    [__proto__]) always reports success: the parent then holds, under
    that key, the parsed value of the text (or the text itself when it
    does not parse), every other field of the parent reads what it did,
    and the node on display shows the value that was written. *)
Theorem scalar_field_commit st nd row seg segs doc ps :
  selectedNode st = Some nd ->
  text nd = [row] -> has_key row = false ->
  path nd = Some (seg :: segs) ->
  JSON.parse (json st) = Normal doc ->
  resolveParent doc (seg :: segs) = Normal (VObj ps) ->
  takesKey (VObj ps) (finalKey (seg :: segs)) = true ->
  let v := parsedOrRaw (props_get "value" (editedFields st)) in
  exists doc' ps',
    committed doc' st (run handleSave st) /\
    resolveParent doc' (seg :: segs) = Normal (VObj ps') /\
    props_get (finalKey (seg :: segs)) ps' = Some v /\
    (forall k, k <> finalKey (seg :: segs) -> props_get k ps' = props_get k ps) /\
    lookup_path doc' (seg :: segs) = Normal v /\
    selectedNode (run handleSave st)
    = Some (mkNode (id nd) [mkRow (key row) v (type row)] (path nd)).
Proof.
  intros Hsel Htext Hkey Hpath Hparse Hparent _ v.
  assert (Hshape : isPrimitiveNode (text nd) = true)
    by (rewrite Htext; simpl; now rewrite Hkey).
  unfold resolveParent, finalKey in *.
  set (k := prop_key (last (seg :: segs) seg)).
  assert (Hop : writeNode (text nd) (editedFields st) k (VObj ps)
                = Normal (VObj (props_set k v ps))).
  { unfold writeNode. rewrite Hshape. now rewrite assignParsed_obj. }
  destruct (update_at_lookup _ _ _ _ _ Hparent eq_refl Hop) as (doc' & U & L).
  assert (A : applyEdits (selectedNode st) (editedFields st) doc = Normal doc').
  { rewrite Hsel. unfold applyEdits. rewrite Hpath. exact U. }
  pose proof (handleSave_committed _ _ _ Hparse A) as Hrun.
  exists doc', (props_set k v ps).
  split; [rewrite Hrun; apply afterSuccess_committed|]. split; [exact L|].
  split; [now rewrite props_get_set, String.eqb_refl|]. split; [|split].
  - intros k' Hk'. rewrite props_get_set.
    destruct (String.eqb k' k) eqn:E; [|reflexivity].
    apply String.eqb_eq in E. contradiction.
  - rewrite (lookup_snoc _ (seg :: segs) seg _ ltac:(discriminate) L).
    simpl. fold k. now rewrite props_get_set, String.eqb_refl.
  - rewrite Hrun. unfold afterSuccess. simpl. rewrite Hsel.
    unfold optimisticNode. rewrite Hshape, Htext. reflexivity.
Qed.

Lemma scalar_field_commit_witness :
  exists doc' ps',
    committed doc' nameStore (run handleSave nameStore) /\
    resolveParent doc' [SegKey "user"; SegKey "name"] = Normal (VObj ps') /\
    props_get "name" ps' = Some (VStr "Bob") /\
    (forall k, k <> "name" ->
               props_get k ps'
               = props_get k [("name", VStr "Ann"); ("tags", VArr [VNum 1; VNum 2])]) /\
    lookup_path doc' [SegKey "user"; SegKey "name"] = Normal (VStr "Bob") /\
    selectedNode (run handleSave nameStore)
    = Some (mkNode "8" [mkRow None (VStr "Bob") TString]
              (Some [SegKey "user"; SegKey "name"])).
Proof.
  exact (scalar_field_commit nameStore nameNode nameRow (SegKey "user") [SegKey "name"]
           nestedDoc [("name", VStr "Ann"); ("tags", VArr [VNum 1; VNum 2])]
           eq_refl eq_refl eq_refl eq_refl eq_refl eq_refl eq_refl).
Defined.

(** ** The form after a save *)






(** The text [ 2 ] typed for [x] is stored as the number 2 and shown as
    [2] after the save. *)
Example form_after_save_padded :
  editedFields (run syncEffect (run handleSave paddedStore)) = [("x", "2")].
Proof. reflexivity. Qed.

(** ** Addresses of parents and children *)

Lemma jsonPathToString_flatten seg p :
  jsonPathToString (Some (seg :: p)) = "$" ++ flatten (map bracketed (seg :: p)).
Proof.
  unfold jsonPathToString. rewrite map_map.
  transitivity
    ("$" ++ "[" ++ join "][" (map (fun x => to_string (segmentText x)) (seg :: p)) ++ "]");
    [reflexivity|].
  f_equal.
  change (map (fun x => to_string (segmentText x)) (seg :: p))
    with (to_string (segmentText seg) :: map (fun x => to_string (segmentText x)) p).
  rewrite join_brackets.
  change (to_string (segmentText seg) :: map (fun x => to_string (segmentText x)) p)
    with (map (fun x => to_string (segmentText x)) (seg :: p)).
  rewrite map_map. unfold flatten. f_equal.
  apply map_ext. intros a. now rewrite bracketed_text.
Qed.

Lemma flatten_snoc (l : list string) (x : string) :
  flatten (l ++ [x])%list = flatten l ++ x.
Proof.
  unfold flatten. induction l as [|y l IH]; simpl.
  - apply append_nil_r.
  - now rewrite IH, append_assoc.
Qed.

(** X19. The address of a child extends the address of its parent.  For
    every path [p], the root included, and every segment, the rendering
    of [p] followed by the segment is the rendering of [p] followed by
    that one segment in brackets: a string segment between double quotes,
    a numeric segment bare. *)
Theorem child_address_extends_parent (p : list Segment) (seg : Segment) :
  jsonPathToString (Some (p ++ [seg])%list) = jsonPathToString (Some p) ++ bracketed seg /\
  jsonPathToString (Some [seg]) = jsonPathToString None ++ bracketed seg.
Proof.
  assert (R : jsonPathToString (Some [seg]) = "$" ++ bracketed seg).
  { rewrite jsonPathToString_flatten. cbn [map flatten fold_right].
    now rewrite append_nil_r. }
  split; [|exact R].
  destruct p as [|s p]; [exact R|].
  change ((s :: p) ++ [seg])%list with (s :: (p ++ [seg]))%list.
  rewrite !jsonPathToString_flatten.
  change (s :: (p ++ [seg]))%list with ((s :: p) ++ [seg])%list.
  rewrite map_app. change (map bracketed [seg]) with [bracketed seg].
  rewrite flatten_snoc. reflexivity.
Qed.

(** ** An address that holds an array *)





(** ** Two commits in a row *)

(** X21. A commit starts from the JSON store, not from what the last commit
    wrote.  [handleSave] reads the document with [getJson] and writes it
    with [setContents], and never reads the contents back; so as long as
    the JSON store has not taken over the contents of a first commit, a
    second successful commit, on whatever node and buffer, stores exactly
    the text it would have stored had the first commit not happened: the
    edit of the first commit is not in it. *)
Theorem second_commit_forgets_first st n fields :
  commitSucceeds st = true ->
  commitSucceeds (reselect n fields st) = true ->
  json (run handleSave st) = json st /\
  commitSucceeds (reselect n fields (run handleSave st)) = true /\
  contents (run handleSave (reselect n fields (run handleSave st)))
  = contents (run handleSave (reselect n fields st)).
Proof.
  intros Hok1 Hok2.
  destruct (commitSucceeds_true _ Hok1) as (doc & doc1 & P & A1).
  destruct (commitSucceeds_true _ Hok2) as (doc0 & doc2 & P2 & A2).
  simpl in P2, A2.
  pose proof (handleSave_committed _ _ _ P A1) as Hrun1.
  split; [now rewrite Hrun1|].
  assert (P3 : JSON.parse (json (reselect n fields (run handleSave st))) = Normal doc0)
    by (rewrite Hrun1; exact P2).
  assert (A3 : applyEdits (selectedNode (reselect n fields (run handleSave st)))
                 (editedFields (reselect n fields (run handleSave st))) doc0
               = Normal doc2) by exact A2.
  split.
  - unfold commitSucceeds, saveBody, bind, getJson, lift. simpl.
    rewrite Hrun1. simpl. rewrite P2. simpl. rewrite A2. reflexivity.
  - rewrite (handleSave_committed _ _ _ P3 A3).
    assert (P4 : JSON.parse (json (reselect n fields st)) = Normal doc0) by exact P2.
    assert (A4 : applyEdits (selectedNode (reselect n fields st))
                   (editedFields (reselect n fields st)) doc0 = Normal doc2) by exact A2.
    now rewrite (handleSave_committed _ _ _ P4 A4).
Qed.

Lemma second_commit_forgets_first_witness :
  json (run handleSave userStore) = json userStore /\
  commitSucceeds (reselect nestedRootNode [("n", "2")] (run handleSave userStore)) = true /\
  contents (run handleSave (reselect nestedRootNode [("n", "2")] (run handleSave userStore)))
  = contents (run handleSave (reselect nestedRootNode [("n", "2")] userStore)).
Proof.
  exact (second_commit_forgets_first userStore nestedRootNode [("n", "2")]
           eq_refl eq_refl).
Defined.

(** After [name] is saved as [Bob] and then [n] as [2], the stored text
    has [n] equal to 2 and [name] still [Ann]. *)
Example second_commit_loses_first_edit :
  JSON.parse (contents (run handleSave userStore))
  = Normal (VObj [("user", VObj [("name", VStr "Bob"); ("tags", VArr [VNum 1; VNum 2])]);
                  ("n", VNum 1)]) /\
  JSON.parse
    (contents (run handleSave
                 (reselect nestedRootNode [("n", "2")] (run handleSave userStore))))
  = Normal (VObj [("user", VObj [("name", VStr "Ann"); ("tags", VArr [VNum 1; VNum 2])]);
                  ("n", VNum 2)]).
Proof. split; reflexivity. Qed.

(** ** Every buffered entry reaches the stored text *)

(** The parser never produces [undefined]. *)
Lemma parse_value_defined fuel :
  (forall cs v r, JSON.parse_value fuel cs = Some (v, r) -> v <> VUndefined) /\
  (forall cs acc v r, JSON.parse_elements fuel cs acc = Some (v, r) -> v <> VUndefined) /\
  (forall cs acc v r, JSON.parse_members fuel cs acc = Some (v, r) -> v <> VUndefined).
Proof.
  induction fuel as [|fuel (IHv & IHe & IHm)].
  - repeat split; intros; discriminate.
  - repeat split.
    + intros cs v r. cbn [JSON.parse_value].
      destruct (JSON.skip_ws cs) as [|c rest]; [discriminate|].
      destruct (Ascii.eqb c "{").
      { destruct (JSON.skip_ws rest) as [|c' rest'] eqn:E.
        - apply IHm.
        - destruct (Ascii.eqb c' "}") eqn:B.
          + apply Ascii.eqb_eq in B. subst c'. intros [= <- _]. discriminate.
          + replace (match c' :: rest' with
                     | "}"%char :: rest'0 => Some (VObj [], rest'0)
                     | _ => JSON.parse_members fuel rest []
                     end) with (JSON.parse_members fuel rest []).
            * apply IHm.
            * destruct c' as [[|] [|] [|] [|] [|] [|] [|] [|]]; try reflexivity.
              discriminate. }
      destruct (Ascii.eqb c "[").
      { destruct (JSON.skip_ws rest) as [|c' rest'] eqn:E.
        - apply IHe.
        - destruct (Ascii.eqb c' "]") eqn:B.
          + apply Ascii.eqb_eq in B. subst c'. intros [= <- _]. discriminate.
          + replace (match c' :: rest' with
                     | "]"%char :: rest'0 => Some (VArr [], rest'0)
                     | _ => JSON.parse_elements fuel rest []
                     end) with (JSON.parse_elements fuel rest []).
            * apply IHe.
            * destruct c' as [[|] [|] [|] [|] [|] [|] [|] [|]]; try reflexivity.
              discriminate. }
      destruct (Ascii.eqb c JSON.dquote).
      { destruct (JSON.lex_string rest) as [[s r']|]; [|discriminate].
        intros [= <- _]. discriminate. }
      destruct (JSON.is_digit c || Ascii.eqb c "-")%bool.
      { destruct (JSON.lex_number (c :: rest)) as [[n r']|]; [|discriminate].
        intros [= <- _]. discriminate. }
      destruct (JSON.starts_with "null" (c :: rest)); [intros [= <- _]; discriminate|].
      destruct (JSON.starts_with "true" (c :: rest)); [intros [= <- _]; discriminate|].
      destruct (JSON.starts_with "false" (c :: rest)); [intros [= <- _]; discriminate|].
      discriminate.
    + intros cs acc v r. cbn [JSON.parse_elements].
      destruct (JSON.parse_value fuel cs) as [[v0 rest]|]; [|discriminate].
      destruct (JSON.skip_ws rest) as [|c rest']; [discriminate|].
      destruct (Ascii.eqb c ",") eqn:B1.
      { apply Ascii.eqb_eq in B1. subst c. apply IHe. }
      destruct (Ascii.eqb c "]") eqn:B2.
      { apply Ascii.eqb_eq in B2. subst c. intros [= <- _]. discriminate. }
      destruct c as [[|] [|] [|] [|] [|] [|] [|] [|]]; try discriminate.
    + intros cs acc v r. cbn [JSON.parse_members].
      destruct (JSON.skip_ws cs) as [|q rest]; [discriminate|].
      destruct (Ascii.eqb q JSON.dquote); [|discriminate].
      destruct (JSON.lex_string rest) as [[k rest1]|]; [|discriminate].
      destruct (JSON.skip_ws rest1) as [|c1 rest2]; [discriminate|].
      destruct (Ascii.eqb c1 ":") eqn:B0.
      2:{ destruct c1 as [[|] [|] [|] [|] [|] [|] [|] [|]]; try discriminate. }
      apply Ascii.eqb_eq in B0. subst c1.
      destruct (JSON.parse_value fuel rest2) as [[v0 rest3]|]; [|discriminate].
      destruct (JSON.skip_ws rest3) as [|c rest4]; [discriminate|].
      destruct (Ascii.eqb c ",") eqn:B1.
      { apply Ascii.eqb_eq in B1. subst c. apply IHm. }
      destruct (Ascii.eqb c "}") eqn:B2.
      { apply Ascii.eqb_eq in B2. subst c. intros [= <- _]. discriminate. }
      destruct c as [[|] [|] [|] [|] [|] [|] [|] [|]]; try discriminate.
Qed.

Lemma parse_defined s v : JSON.parse s = Normal v -> v <> VUndefined.
Proof.
  unfold JSON.parse.
  destruct (JSON.parse_value _ _) as [[v0 rest]|] eqn:E; [|discriminate].
  destruct (JSON.skip_ws rest); [|discriminate].
  intros [= <-]. eapply (proj1 (parse_value_defined _)); eauto.
Qed.

Lemma parsedOrRaw_defined s : parsedOrRaw (Some s) <> VUndefined.
Proof.
  unfold parsedOrRaw. destruct (JSON.parse s) as [v|] eqn:E; [|discriminate].
  eapply parse_defined; eauto.
Qed.

Lemma serialize_defined indent v : v <> VUndefined -> JSON.serialize indent v <> None.
Proof.
  destruct v as [| |[|]|n|s|l|ps]; intros H; try congruence; cbn [JSON.serialize];
    try discriminate.
  - destruct (map _ l); discriminate.
  - destruct (flat_map _ ps); discriminate.
Qed.

(** X22. No buffered entry is lost in serialisation.  After a commit on an
    object-shaped node whose address holds an object, every buffered key
    holds a value that is not [undefined], so [JSON.stringify] prints the
    field: the parser never yields [undefined], and text that does not
    parse is stored as a string. *)
Theorem buffered_entries_are_serialised st nd doc fields :
  selectedNode st = Some nd ->
  isPrimitiveNode (text nd) = false ->
  JSON.parse (json st) = Normal doc ->
  lookup_path doc (nodePath nd) = Normal (VObj fields) ->
  exists doc' fields',
    run handleSave st = afterSuccess doc' st /\
    lookup_path doc' (nodePath nd) = Normal (VObj fields') /\
    forall k, props_mem k (editedFields st) = true ->
              exists v, props_get k fields' = Some v /\ v <> VUndefined /\
                        forall indent, JSON.serialize indent v <> None.
Proof.
  intros Hsel Hshape Hparse Hlook.
  destruct (commit_writes_object_fields st nd doc fields Hsel Hshape Hparse Hlook)
    as (doc' & Hrun & L).
  exists doc', (writtenFields (editedFields st) fields).
  split; [exact Hrun|]. split; [exact L|].
  intros k M. rewrite writtenFields_get, M.
  destruct (props_mem_true_get _ _ M) as (t & Ht). rewrite Ht.
  eexists. split; [reflexivity|].
  split; [apply parsedOrRaw_defined|].
  intros indent. apply serialize_defined, parsedOrRaw_defined.
Qed.

Lemma buffered_entries_are_serialised_witness :
  exists doc' fields',
    run handleSave userStore = afterSuccess doc' userStore /\
    lookup_path doc' (nodePath userNode) = Normal (VObj fields') /\
    forall k, props_mem k (editedFields userStore) = true ->
              exists v, props_get k fields' = Some v /\ v <> VUndefined /\
                        forall indent, JSON.serialize indent v <> None.
Proof.
  exact (buffered_entries_are_serialised userStore userNode nestedDoc
           [("name", VStr "Ann"); ("tags", VArr [VNum 1; VNum 2])]
           eq_refl eq_refl eq_refl eq_refl).
Defined.

End MoreCommitFacts.
